(** * Field reconciliation in the NHL tool server

    A shallow embedding of the tool handlers of the server, [src/server.ts]
    (the second document of [src/demo.ts], whose line numbers the
    comments below use), and of two handlers of its later, larger
    revision ([unnamed/part_001]), together with the properties of their
    endpoint-fallback and field-extraction logic.

    Upstream documents are untyped ([any] in the source), so the handlers
    are modelled over a small universe of JSON-derived JavaScript values
    with the operators the handlers use: truthiness, [||], [&&], property
    access (which raises a [TypeError] on [null] and [undefined]),
    optional chaining, [String(v)] and template interpolation.  A handler
    runs in a monad that threads the upstream world, the log of requested
    URLs and the failure lines written to the console, and that can
    throw. *)

From Stdlib Require Import Ascii String ZArith.
From stdpp Require Import base option list strings pretty gmap fin_maps sorting.

Local Open Scope string_scope.
Local Open Scope Z_scope.
Local Open Scope list_scope.
Set Warnings "-register-all".
Set Default Proof Using "Type".

(** ** JavaScript values obtained from JSON documents *)

Module Js.

(** Numbers are the integer-valued ones (identifiers and counters); they
    are printed by their decimal digits.  Objects keep their entries as an
    association list in document order; a read takes the first entry with
    the key. *)
Inductive JsVal : Type :=
| JUndef
| JNull
| JBool (b : bool)
| JNum (n : Z)
| JStr (s : string)
| JArr (elems : list JsVal)
| JObj (entries : list (string * JsVal)).

(** Exceptions a handler can see. *)
Inductive Exn : Type :=
| NetworkError            (* fetch() rejected *)
| HttpError (status : Z)  (* thrown by makeNHLRequest on !response.ok *)
| JsonError               (* response.json() rejected *)
| TypeError (what : string).

(** Outcome of a computation that may throw. *)
Inductive Res (A : Type) : Type :=
| Ok (a : A)
| Throw (e : Exn).
Arguments Ok {A} a.
Arguments Throw {A} e.

#[export] Instance Res_ret : MRet Res := fun _ a => Ok a.
#[export] Instance Res_bind : MBind Res := fun _ _ f m =>
  match m with Ok a => f a | Throw e => Throw e end.

Definition is_ok {A} (r : Res A) : bool :=
  match r with Ok _ => true | Throw _ => false end.

(** [v === undefined || v === null] *)
Definition is_nullish (v : JsVal) : bool :=
  match v with JUndef | JNull => true | _ => false end.

(** ToBoolean *)
Definition truthy (v : JsVal) : bool :=
  match v with
  | JUndef | JNull => false
  | JBool b => b
  | JNum n => negb (n =? 0)
  | JStr s => negb (String.eqb s "")
  | JArr _ | JObj _ => true
  end.

(** [a || b] and [a && b] *)
Definition js_or (a b : JsVal) : JsVal := if truthy a then a else b.
Definition js_and (a b : JsVal) : JsVal := if truthy a then b else a.

Fixpoint assoc (k : string) (entries : list (string * JsVal)) : JsVal :=
  match entries with
  | [] => JUndef
  | (k', v) :: rest => if String.eqb k k' then v else assoc k rest
  end.

Definition str_length (s : string) : Z := Z.of_nat (String.length s).

Definition char_at (s : string) (i : nat) : JsVal :=
  match String.get i s with
  | Some c => JStr (String c EmptyString)
  | None => JUndef
  end.

(** Property read [v.k] on a value that is neither [null] nor
    [undefined].  The handlers read data properties only; of the
    inherited ones, only [length] of arrays and strings is ever a key. *)
Definition prop (v : JsVal) (k : string) : JsVal :=
  match v with
  | JObj entries => assoc k entries
  | JArr elems => if String.eqb k "length" then JNum (Z.of_nat (length elems)) else JUndef
  | JStr s => if String.eqb k "length" then JNum (str_length s) else JUndef
  | _ => JUndef
  end.

(** [v.k]: a [TypeError] when [v] is [null] or [undefined]. *)
Definition get (v : JsVal) (k : string) : Res JsVal :=
  if is_nullish v then Throw (TypeError k) else Ok (prop v k).

(** [v?.k] *)
Definition opt_get (v : JsVal) (k : string) : JsVal :=
  if is_nullish v then JUndef else prop v k.

(** [v[0]] on a value that is neither [null] nor [undefined]. *)
Definition first (v : JsVal) : JsVal :=
  match v with
  | JArr elems => match elems with x :: _ => x | [] => JUndef end
  | JStr s => char_at s 0
  | JObj entries => assoc "0" entries
  | _ => JUndef
  end.

Definition get_first (v : JsVal) : Res JsVal :=
  if is_nullish v then Throw (TypeError "0") else Ok (first v).

Definition join (sep : string) (l : list string) : string := String.concat sep l.

(** [String(v)], also the conversion of a template literal.  Arrays join
    the conversions of their elements with a comma, [null] and
    [undefined] elements giving the empty string; plain objects give the
    generic marker. *)
Fixpoint to_string (v : JsVal) : string :=
  match v with
  | JUndef => "undefined"
  | JNull => "null"
  | JBool b => if b then "true" else "false"
  | JNum n => pretty n
  | JStr s => s
  | JArr elems =>
      join "," (map (fun x => if is_nullish x then "" else to_string x) elems)
  | JObj _ => "[object Object]"
  end.

(** Whether the string conversion of [v] returns.  A parsed JSON object
    inherits a callable [toString] unless it has a key of that name of
    its own, whose value, being JSON, is not callable; [valueOf] then
    gives the object back and the conversion throws.  An array converts
    its elements, [null] and [undefined] apart. *)
Fixpoint convertible (v : JsVal) : bool :=
  match v with
  | JObj entries => negb (existsb (fun kv => String.eqb kv.1 "toString") entries)
  | JArr elems => forallb convertible elems
  | _ => true
  end.

(** [`${v}`]: the string conversion, which throws a [TypeError] on a
    value that cannot be converted to a primitive.  Where it returns, it
    returns [to_string v]; it is used where a property depends on
    whether the conversion returns. *)
Definition to_text (v : JsVal) : Res string :=
  if convertible v then Ok (to_string v)
  else Throw (TypeError "Cannot convert object to primitive value").

(** [typeof v] *)
Definition typeof (v : JsVal) : string :=
  match v with
  | JUndef => "undefined"
  | JNull | JArr _ | JObj _ => "object"
  | JBool _ => "boolean"
  | JNum _ => "number"
  | JStr _ => "string"
  end.

(** [v === s] for a string [s] *)
Definition eq_str (v : JsVal) (s : string) : bool :=
  match v with JStr s' => String.eqb s' s | _ => false end.

(** [a === b] where the two values come from different documents: objects
    and arrays are then never the same reference. *)
Definition strict_eq (a b : JsVal) : bool :=
  match a, b with
  | JUndef, JUndef | JNull, JNull => true
  | JBool x, JBool y => Bool.eqb x y
  | JNum x, JNum y => x =? y
  | JStr x, JStr y => String.eqb x y
  | _, _ => false
  end.

(** [a + b] where one operand is a string: concatenation of the string
    conversions. *)
Definition str_plus (a b : JsVal) : JsVal := JStr (to_string a +:+ to_string b).

(** [a || b] and [a && b] with the right operand evaluated on demand. *)
Definition or_else (a : JsVal) (b : Res JsVal) : Res JsVal :=
  if truthy a then Ok a else b.
Definition and_then (a : JsVal) (b : Res JsVal) : Res JsVal :=
  if truthy a then b else Ok a.

(** [v.find(pred)]: only arrays have the method; the callback may throw. *)
Fixpoint find_first (pred : JsVal -> Res bool) (l : list JsVal) : Res JsVal :=
  match l with
  | [] => Ok JUndef
  | x :: rest =>
      match pred x with
      | Ok true => Ok x
      | Ok false => find_first pred rest
      | Throw e => Throw e
      end
  end.

Definition array_find (v : JsVal) (pred : JsVal -> Res bool) : Res JsVal :=
  match v with
  | JArr elems => find_first pred elems
  | _ => Throw (TypeError "find is not a function")
  end.

Fixpoint chars (s : string) : list JsVal :=
  match s with
  | EmptyString => []
  | String c rest => JStr (String c EmptyString) :: chars rest
  end.

(** The elements [for (const x of v)] visits: arrays and strings are
    iterable, nothing else among JSON values is. *)
Definition iterate (v : JsVal) : Res (list JsVal) :=
  match v with
  | JArr elems => Ok elems
  | JStr s => Ok (chars s)
  | _ => Throw (TypeError "not iterable")
  end.

(** [v > 0].  Strings, and arrays through their string conversion, are
    compared after StringToNumber, which stays a parameter
    [positive_literal] of the model: it tells whether a string denotes a
    number above zero. *)
Definition gt_zero (positive_literal : string -> bool) (v : JsVal) : bool :=
  match v with
  | JUndef | JNull | JObj _ => false
  | JBool b => b
  | JNum n => 0 <? n
  | JStr s => positive_literal s
  | JArr _ => positive_literal (to_string v)
  end.

End Js.

Import Js.

(** ** The transport and the handler monad *)

(** What [fetch(url)] followed by [response.json()] can do: reject, or
    deliver a response whose body parses ([Some]) or does not ([None]). *)
Inductive FetchOutcome : Type :=
| NetFail
| Response (status : Z) (body : option JsVal).

(** [response.ok] *)
Definition status_ok (status : Z) : bool := (200 <=? status) && (status <=? 299).

(** Lines written with [console.error] that record a failure.  The
    informational lines ("Trying ...", "Got response ...") have no effect
    on a handler's result and are left out. *)
Inductive LogEntry : Type :=
| RequestError (e : Exn)                   (* "Error making NHL request:" *)
| EndpointError (name : string) (e : Exn)  (* "Error with <name>: <error>" *)
| LookupError (e : Exn)                    (* "Error retrieving team information:" *)
| Unresolved (errors : list (string * Exn)). (* "Failed to retrieve data ... Errors: ..." *)

(** The state a handler threads: the upstream world, the URLs requested
    so far (oldest first) and the failure lines logged so far. *)
Record St (W : Type) : Type := mkSt {
  world : W;
  fetched : list string;
  console : list LogEntry
}.
Arguments mkSt {W} _ _ _.
Arguments world {W} _.
Arguments fetched {W} _.
Arguments console {W} _.

Definition M (W A : Type) : Type := St W -> Res A * St W.

#[export] Instance M_ret {W} : MRet (M W) := fun _ a s => (Ok a, s).
#[export] Instance M_bind {W} : MBind (M W) := fun _ _ f m s =>
  match m s with
  | (Ok a, s') => f a s'
  | (Throw e, s') => (Throw e, s')
  end.

Definition lift {W A} (r : Res A) : M W A := fun s => (r, s).

Definition log {W} (entry : LogEntry) : M W unit := fun s =>
  (Ok tt, mkSt (world s) (fetched s) (console s ++ [entry])).

(** [try { body } catch (error) { handler(error) }] *)
Definition try_catch {W A} (body : M W A) (handler : Exn -> M W A) : M W A := fun s =>
  match body s with
  | (Ok a, s') => (Ok a, s')
  | (Throw e, s') => handler e s'
  end.

(** Control flow out of a loop body. *)
Inductive Flow : Type := Next | Break.

(** [for (const x of l) { body }] over a loop state [S]. *)
Fixpoint for_of {W A S} (l : list A) (body : A -> S -> M W (Flow * S)) (s : S) : M W S :=
  match l with
  | [] => mret s
  | x :: rest =>
      r ← body x s;
      match r with
      | (Break, s') => mret s'
      | (Next, s') => for_of rest body s'
      end
  end.

Definition start {W} (w : W) : St W := mkSt w [] [].

Section Transport.
Context {W : Type}.
Variable fetch : W -> string -> FetchOutcome * W.

(** The awaited part of makeNHLRequest: the body, or the error thrown
    inside its [try]. *)
Definition request (url : string) : M W JsVal := fun s =>
  let '(out, w') := fetch (world s) url in
  let s' := mkSt w' (fetched s ++ [url]) (console s) in
  match out with
  | NetFail => (Throw NetworkError, s')
  | Response status body =>
      if status_ok status then
        match body with
        | Some v => (Ok v, s')
        | None => (Throw JsonError, s')
        end
      else (Throw (HttpError status), s')
  end.

(** makeNHLRequest: every error is logged and turned into [null]. *)
Definition makeNHLRequest (url : string) : M W JsVal :=
  try_catch (request url)
            (fun error => _ ← log (RequestError error); mret JNull).
End Transport.

(** The error a fetch outcome raises inside makeNHLRequest, if any. *)
Definition failure (out : FetchOutcome) : option Exn :=
  match out with
  | NetFail => Some NetworkError
  | Response status body =>
      if status_ok status then
        match body with Some _ => None | None => Some JsonError end
      else Some (HttpError status)
  end.

(** What makeNHLRequest hands to its caller for a fetch outcome. *)
Definition delivered (out : FetchOutcome) : JsVal :=
  match out with
  | NetFail => JNull
  | Response status body =>
      if status_ok status then default JNull body else JNull
  end.

(** The state after a handler logged that nothing was resolved. *)
Definition gave_up {W} (s : St W) (errorMessages : list (string * Exn)) : St W :=
  mkSt (world s) (fetched s) (console s ++ [Unresolved errorMessages]).

(** The state after one request to [url] with outcome [out]. *)
Definition requested {W} (s : St W) (url : string) (out : FetchOutcome) (w' : W) : St W :=
  mkSt w' (fetched s ++ [url])
       (console s ++ match failure out with Some e => [RequestError e] | None => [] end).

(** ** Strings of the caller *)

Module Str.

Definition upper_char (c : ascii) : ascii :=
  let n := nat_of_ascii c in
  if ((97 <=? n) && (n <=? 122))%nat then ascii_of_nat (n - 32) else c.

(** [s.toUpperCase()] on the ASCII range. *)
Fixpoint toUpperCase (s : string) : string :=
  match s with
  | EmptyString => EmptyString
  | String c rest => String (upper_char c) (toUpperCase rest)
  end.

(** Space, tab, line feed, vertical tab, form feed, carriage return. *)
Definition is_space (c : ascii) : bool :=
  let n := nat_of_ascii c in
  ((n =? 32) || ((9 <=? n) && (n <=? 13)))%nat.

Fixpoint trimStart (s : string) : string :=
  match s with
  | EmptyString => EmptyString
  | String c rest => if is_space c then trimStart rest else s
  end.

Fixpoint trimEnd (s : string) : string :=
  match s with
  | EmptyString => EmptyString
  | String c rest =>
      match trimEnd rest with
      | EmptyString => if is_space c then EmptyString else String c EmptyString
      | rest' => String c rest'
      end
  end.

Definition lower_char (c : ascii) : ascii :=
  let n := nat_of_ascii c in
  if ((65 <=? n) && (n <=? 90))%nat then ascii_of_nat (n + 32) else c.

(** [s.toLowerCase()] on the ASCII range. *)
Fixpoint toLowerCase (s : string) : string :=
  match s with
  | EmptyString => EmptyString
  | String c rest => String (lower_char c) (toLowerCase rest)
  end.

(** [s.trim()] on the ASCII range. *)
Definition trim (s : string) : string := trimEnd (trimStart s).

End Str.

(** ** get-team ([src/demo.ts], lines 184-421) *)

Definition NHL_WEB_API_BASE : string := "https://api-web.nhle.com/v1".
Definition NHL_STATS_API_BASE : string := "https://api.nhle.com/stats/rest/en".

Module GetTeam.

(** A [TeamResponse] under construction: a JavaScript object used as a
    map from field names to values.  A key bound to [undefined] is a key
    the object literal lists with an undefined value. *)
Definition obj (entries : list (string * JsVal)) : gmap string JsVal :=
  list_to_map entries.

(** [r.k] *)
Definition field (r : gmap string JsVal) (k : string) : JsVal :=
  default JUndef (r !! k).

Record Endpoint : Type := mkEndpoint {
  name : string;
  url : string;
  parseTeam : JsVal -> Res (gmap string JsVal)
}.

(** [row.k || 0] *)
Definition or_zero (row : JsVal) (k : string) : Res JsVal :=
  v ← get row k; mret (js_or v (JNum 0)).

Section Parsers.
Variable teamCode : string.

(** Roster API *)
Definition parse_roster (data : JsVal) : Res (gmap string JsVal) :=
  teamId ← get data "teamId";
  nm ← (n ← get data "name"; or_else n (get data "fullName"));
  locationName ← get data "locationName";
  teamName ← get data "teamName";
  division ← get data "division";
  conference ← get data "conference";
  mret (obj [("teamId", teamId); ("name", nm); ("abbrev", JStr teamCode);
             ("locationName", locationName); ("teamName", teamName);
             ("division", division); ("conference", conference)]).

(** Club Stats API *)
Definition parse_club_stats (data : JsVal) : Res (gmap string JsVal) :=
  teamId ← (i ← get data "teamId"; or_else i (get data "id"));
  nm ← (n ← get data "teamName"; or_else n (get data "name"));
  locationName ← get data "locationName";
  teamName ← (n ← get data "teamName"; or_else n (get data "name"));
  record ← (teamStats ← get data "teamStats";
            row ← and_then teamStats (get_first teamStats);
            if truthy row then
              wins ← or_zero row "wins";
              losses ← or_zero row "losses";
              otLosses ← or_zero row "otLosses";
              points ← or_zero row "points";
              mret (JObj [("wins", wins); ("losses", losses);
                          ("otLosses", otLosses); ("points", points)])
            else mret JUndef);
  mret (obj [("teamId", teamId); ("name", nm); ("abbrev", JStr teamCode);
             ("locationName", locationName); ("teamName", teamName);
             ("record", record)]).

(** [t.triCode === teamCode || t.abbrev === teamCode ||
     t.teamAbbrev?.default === teamCode] *)
Definition matches_team_info (t : JsVal) : Res bool :=
  triCode ← get t "triCode";
  if eq_str triCode teamCode then mret true else
  abbrev ← get t "abbrev";
  if eq_str abbrev teamCode then mret true else
  teamAbbrev ← get t "teamAbbrev";
  mret (eq_str (opt_get teamAbbrev "default") teamCode).

(** [m.k || (m.sub && m.sub.k')] *)
Definition or_nested (m : JsVal) (k sub k' : string) : Res JsVal :=
  v ← get m k;
  or_else v (s ← get m sub; and_then s (s' ← get m sub; get s' k')).

(** Team Info API *)
Definition parse_team_info (data : JsVal) : Res (gmap string JsVal) :=
  teams ← (d ← get data "data"; or_else d (Ok (JArr [])));
  matchingTeam ← array_find teams matches_team_info;
  if negb (truthy matchingTeam) then mret (obj []) else
  teamId ← (i ← get matchingTeam "id"; or_else i (get matchingTeam "teamId"));
  nm ← (n ← get matchingTeam "name"; or_else n (get matchingTeam "fullName"));
  locationName ← get matchingTeam "locationName";
  teamName ← get matchingTeam "teamName";
  divName ← or_nested matchingTeam "divisionName" "division" "name";
  divShort ← or_nested matchingTeam "divisionAbbrev" "division" "nameShort";
  confName ← or_nested matchingTeam "conferenceName" "conference" "name";
  confShort ← or_nested matchingTeam "conferenceAbbrev" "conference" "nameShort";
  mret (obj [("teamId", teamId); ("name", nm); ("abbrev", JStr teamCode);
             ("locationName", locationName); ("teamName", teamName);
             ("division", JObj [("name", divName); ("shortName", divShort)]);
             ("conference", JObj [("name", confName); ("shortName", confShort)])]).

(** [t.teamAbbrev?.default === teamCode || t.abbrev === teamCode ||
     t.triCode === teamCode] *)
Definition matches_standings (t : JsVal) : Res bool :=
  teamAbbrev ← get t "teamAbbrev";
  if eq_str (opt_get teamAbbrev "default") teamCode then mret true else
  abbrev ← get t "abbrev";
  if eq_str abbrev teamCode then mret true else
  triCode ← get t "triCode";
  mret (eq_str triCode teamCode).

(** The search loop of the Standings API parser: the division and the
    team found, both [undefined] when the loop ends without a match. *)
Fixpoint search_divisions (divisions : list JsVal) : Res (JsVal * JsVal) :=
  match divisions with
  | [] => Ok (JUndef, JUndef)
  | div :: rest =>
      match (teams ← (r ← get div "teamRecords";
                      or_else r (t ← get div "teams"; or_else t (Ok (JArr []))));
             array_find teams matches_standings) with
      | Throw e => Throw e
      | Ok team => if truthy team then Ok (div, team) else search_divisions rest
      end
  end.

(** Standings API *)
Definition parse_standings (data : JsVal) : Res (gmap string JsVal) :=
  divisions ← (s ← get data "standings";
               or_else (opt_get s "divisionStandings")
                 (d ← get data "divisionStandings";
                  or_else d (r ← get data "records"; or_else r (Ok (JArr [])))));
  divs ← iterate divisions;
  found ← search_divisions divs;
  let '(division, foundTeam) := found in
  if negb (truthy foundTeam) then mret (obj []) else
  teamId ← (i ← get foundTeam "teamId"; or_else i (get foundTeam "id"));
  nm ← (tn ← get foundTeam "teamName";
        d ← and_then tn (tn' ← get foundTeam "teamName"; get tn' "default");
        or_else d (get foundTeam "name"));
  divName ← (n ← get division "divisionName"; or_else n (Ok (JStr "Unknown Division")));
  divShort ← (a ← get division "divisionAbbrev"; or_else a (Ok (JStr "")));
  confName ← (a ← get division "conferenceAbbrev";
              if eq_str a "E" then mret (JStr "Eastern") else
              a' ← get division "conferenceAbbrev";
              if eq_str a' "W" then mret (JStr "Western") else
              n ← get division "conferenceName"; or_else n (Ok (JStr "Unknown")));
  confShort ← (a ← get division "conferenceAbbrev"; or_else a (Ok (JStr "")));
  wins ← or_zero foundTeam "wins";
  losses ← or_zero foundTeam "losses";
  otLosses ← or_zero foundTeam "otLosses";
  points ← or_zero foundTeam "points";
  mret (obj [("teamId", teamId); ("name", nm); ("abbrev", JStr teamCode);
             ("division", JObj [("name", divName); ("shortName", divShort)]);
             ("conference", JObj [("name", confName); ("shortName", confShort)]);
             ("record", JObj [("wins", wins); ("losses", losses);
                              ("otLosses", otLosses); ("points", points)])]).

(** The endpoints, in the order they are tried. *)
Definition endpoints : list Endpoint :=
  [ mkEndpoint "Roster API"
      (NHL_WEB_API_BASE +:+ "/roster/" +:+ teamCode +:+ "/current") parse_roster;
    mkEndpoint "Club Stats API"
      (NHL_WEB_API_BASE +:+ "/club-stats/" +:+ teamCode +:+ "/now") parse_club_stats;
    mkEndpoint "Team Info API"
      (NHL_STATS_API_BASE +:+ "/team") parse_team_info;
    mkEndpoint "Standings API"
      (NHL_WEB_API_BASE +:+ "/standings/now") parse_standings ].
End Parsers.

(** What every parser returns: the empty record, or a record whose
    [abbrev] is the caller's team code. *)
Definition keeps_team_code (teamCode : string) (parsedTeam : gmap string JsVal) : Prop :=
  parsedTeam = ∅ \/ parsedTeam !! "abbrev" = Some (JStr teamCode).

(** The [record] literal the Club Stats and Standings parsers build from a
    row that is neither [null] nor [undefined]. *)
Definition zero_filled (row : JsVal) : JsVal :=
  JObj [("wins", js_or (prop row "wins") (JNum 0));
        ("losses", js_or (prop row "losses") (JNum 0));
        ("otLosses", js_or (prop row "otLosses") (JNum 0));
        ("points", js_or (prop row "points") (JNum 0))].

(** The merge step (lines 339-345, and again lines 425-431 of
    [unnamed/part_001]):
    [{ ...teamData, ...Object.fromEntries(Object.entries(parsedTeam)
         .filter(([_, v]) => v !== undefined && v !== null)) }].
    The later spread wins, and stdpp's union prefers its left operand. *)
Definition merge (teamData parsedTeam : gmap string JsVal) : gmap string JsVal :=
  filter (fun kv => is_nullish kv.2 = false) parsedTeam ∪ teamData.

(** The merge rule in the words of the specification (section 4.3, step
    2d), for comparison with [merge]: a field the accumulator already
    holds is kept, any other field is adopted from the partial record. *)
Definition first_writer_wins (teamData parsedTeam : gmap string JsVal)
    : gmap string JsVal :=
  filter (fun kv => is_nullish kv.2 = false) teamData ∪ parsedTeam.

(** [teamData.name && teamData.division && teamData.conference] *)
Definition complete (teamData : gmap string JsVal) : bool :=
  truthy (js_and (js_and (field teamData "name") (field teamData "division"))
                 (field teamData "conference")).

Definition failure_text (teamCode : string) : string :=
  "Failed to retrieve data for team: " +:+ teamCode +:+
  ". The team code may be invalid or NHL API might be unavailable.".

Definition stats_url (teamCode : string) : string :=
  NHL_WEB_API_BASE +:+ "/club-stats/" +:+ teamCode +:+ "/now".

(** The first four lines of the answer. *)
Definition header_lines (teamCode : string) (teamData : gmap string JsVal) : list string :=
  let teamFullName :=
    if truthy (js_or (field teamData "name")
                     (js_and (field teamData "locationName") (field teamData "teamName")))
    then to_string (field teamData "locationName") +:+ " " +:+
         to_string (field teamData "teamName")
    else teamCode +:+ " (name unavailable)" in
  [ "Team: " +:+ teamFullName;
    "Abbreviation: " +:+ teamCode;
    "Division: " +:+
      to_string (js_or (opt_get (field teamData "division") "name") (JStr "Not available"));
    "Conference: " +:+
      to_string (js_or (opt_get (field teamData "conference") "name") (JStr "Not available")) ].

(** [row.k || row.k' || "N/A"] *)
Definition record_or_na (row : JsVal) (k k' : string) : Res JsVal :=
  a ← get row k; or_else a (b ← get row k'; or_else b (Ok (JStr "N/A"))).

(** The lines printed from the first row of the club statistics. *)
Definition stats_lines (stats : JsVal) : Res (list string) :=
  wins ← get stats "wins";
  losses ← get stats "losses";
  otLosses ← get stats "otLosses";
  points ← get stats "points";
  goalsFor ← get stats "goalsFor";
  goalsAgainst ← get stats "goalsAgainst";
  home ← record_or_na stats "homeRecord" "homeRecordL10";
  away ← record_or_na stats "awayRecord" "awayRecordL10";
  mret [ "Stats:";
         "  Record: " +:+ to_string wins +:+ "-" +:+ to_string losses +:+ "-" +:+
           to_string otLosses;
         "  Points: " +:+ to_string points;
         "  Goals For: " +:+ to_string goalsFor;
         "  Goals Against: " +:+ to_string goalsAgainst;
         "  Home Record: " +:+ to_string home;
         "  Away Record: " +:+ to_string away ].

(** The fallback lines printed from the merged [record]. *)
Definition record_lines (record : JsVal) : Res (list string) :=
  wins ← get record "wins";
  losses ← get record "losses";
  otLosses ← get record "otLosses";
  points ← get record "points";
  mret [ "Stats:";
         "  Record: " +:+ to_string wins +:+ "-" +:+ to_string losses +:+ "-" +:+
           to_string otLosses;
         "  Points: " +:+ to_string points ].

Section Handler.
Context {W : Type}.
Variable fetch : W -> string -> FetchOutcome * W.
Variable positive_literal : string -> bool.

(** The loop state: [teamData] and [errorMessages]. *)
Definition LoopState : Type := gmap string JsVal * list (string * Exn).

(** One iteration of the endpoint loop. *)
Definition try_endpoint (endpoint : Endpoint) (st : LoopState) : M W (Flow * LoopState) :=
  let '(teamData, errorMessages) := st in
  try_catch
    (data ← makeNHLRequest fetch (url endpoint);
     if truthy data then
       parsedTeam ← lift (parseTeam endpoint data);
       let teamData' := merge teamData parsedTeam in
       if complete teamData' then mret (Break, (teamData', errorMessages))
       else mret (Next, (teamData', errorMessages))
     else mret (Next, (teamData, errorMessages)))
    (fun error =>
       _ ← log (EndpointError (name endpoint) error);
       mret (Next, (teamData, errorMessages ++ [(name endpoint, error)]))).

(** The endpoint loop, from an empty [teamData]. *)
Definition resolve (eps : list Endpoint) : M W LoopState :=
  for_of eps try_endpoint (∅, []).

(** [statsData && statsData.teamStats && statsData.teamStats.length > 0] *)
Definition has_stats (statsData : JsVal) : bool :=
  truthy statsData && truthy (prop statsData "teamStats") &&
  gt_zero positive_literal (prop (prop statsData "teamStats") "length").

(** [teamInfo] after the optional statistics block. *)
Definition team_info (teamCode : string) (teamData : gmap string JsVal)
    (statsData : JsVal) : Res (list string) :=
  if has_stats statsData then
    more ← stats_lines (first (prop statsData "teamStats"));
    mret (header_lines teamCode teamData ++ more)
  else if truthy (field teamData "record") then
    more ← record_lines (field teamData "record");
    mret (header_lines teamCode teamData ++ more)
  else mret (header_lines teamCode teamData).

(** The part of the handler after the endpoint loop. *)
Definition answer (teamCode : string) (st : LoopState) : M W string :=
  let '(teamData, errorMessages) := st in
  if negb (truthy (field teamData "name")) then
    _ ← log (Unresolved errorMessages);
    mret (failure_text teamCode)
  else
    statsData ← makeNHLRequest fetch (stats_url teamCode);
    teamInfo ← lift (team_info teamCode teamData statsData);
    mret (join "\n" teamInfo).  (* the separator is a backslash and an n *)

(** The handler, over a list of endpoints built from the team code. *)
Definition handler (eps : string -> list Endpoint) (teamAbbrev : string) : M W string :=
  let teamCode := Str.trim (Str.toUpperCase teamAbbrev) in
  st ← resolve (eps teamCode);
  answer teamCode st.

Definition get_team : string -> M W string := handler endpoints.
End Handler.

End GetTeam.

(** ** safeString *)

Module SafeString.

(** The helper of get-player and get-skater-leaders ([src/demo.ts],
    lines 572-578 and 1045-1050). *)
Definition safeString (value : JsVal) (defaultValue : string) : JsVal :=
  if is_nullish value then JStr defaultValue
  else if String.eqb (typeof value) "string" then value
  else if String.eqb (typeof value) "number" || String.eqb (typeof value) "boolean"
       then JStr (to_string value)
  else JStr defaultValue.

(** The helper of get-player-landing ([unnamed/part_001], lines 706-713),
    as most helpers of the later revision, with the
    extra line [if (typeof value === 'object' && value.default) return
    value.default;]. *)
Definition safeString_localized (value : JsVal) (defaultValue : string) : JsVal :=
  if is_nullish value then JStr defaultValue
  else if String.eqb (typeof value) "string" then value
  else if String.eqb (typeof value) "number" || String.eqb (typeof value) "boolean"
       then JStr (to_string value)
  else if String.eqb (typeof value) "object" && truthy (prop value "default")
       then prop value "default"
  else JStr defaultValue.

(** The default of the second parameter. *)
Definition default_na : string := "N/A".

End SafeString.

(** ** get-skater-leaders: the URL loop ([src/demo.ts], lines 916-1016) *)

Module SkaterLeaders.

(** What an [extract] function returns when it does not return [null]. *)
Record Extracted : Type := mkExtracted {
  leaders : JsVal;
  categoryLabel : JsVal;
  season : JsVal
}.

Record Source : Type := mkSource {
  url : string;
  format : string;
  extract : JsVal -> Res (option Extracted)
}.

(** [v?.toLowerCase()]: strings have the method, other values that are
    neither [null] nor [undefined] do not. *)
Definition opt_toLowerCase (v : JsVal) : Res JsVal :=
  if is_nullish v then Ok JUndef
  else match v with
       | JStr s => Ok (JStr (Str.toLowerCase s))
       | _ => Throw (TypeError "toLowerCase is not a function")
       end.

Section Sources.
Variable category : string.
Variable limit : Z.

(** [c.categoryName?.toLowerCase() === category.toLowerCase() ||
     c.categoryLabel?.toLowerCase() === category.toLowerCase()] *)
Definition matches_category (c : JsVal) : Res bool :=
  n ← get c "categoryName";
  n' ← opt_toLowerCase n;
  if eq_str n' (Str.toLowerCase category) then mret true else
  l ← get c "categoryLabel";
  l' ← opt_toLowerCase l;
  mret (eq_str l' (Str.toLowerCase category)).

(** Primary web API *)
Definition extract_web (data : JsVal) : Res (option Extracted) :=
  if negb (truthy data) then mret None else
  categories ← get data "categories";
  if negb (truthy categories) then mret None else
  if strict_eq (prop categories "length") (JNum 0) then mret None else
  categoryData ← (found ← array_find categories matches_category;
                  or_else found (get_first categories));
  ls ← (l ← get categoryData "leaders"; or_else l (Ok (JArr [])));
  label ← (l ← get categoryData "categoryLabel"; or_else l (Ok (JStr category)));
  sn ← (x ← get data "season"; or_else x (Ok (JStr "current")));
  mret (Some (mkExtracted ls label sn)).

(** Stats API, direct endpoint *)
Definition extract_stats_direct (data : JsVal) : Res (option Extracted) :=
  if negb (truthy data) then mret None else
  d ← get data "data";
  if negb (truthy d) then mret None else
  label ← (x ← get data "description"; or_else x (Ok (JStr category)));
  sn ← (x ← get data "season"; or_else x (Ok (JStr "current")));
  mret (Some (mkExtracted d label sn)).

(** Stats API, filtered summary *)
Definition extract_stats_filtered (data : JsVal) : Res (option Extracted) :=
  if negb (truthy data) then mret None else
  d ← get data "data";
  if negb (truthy d) then mret None else
  mret (Some (mkExtracted d (JStr category) (JStr "2024-2025"))).

Definition urls : list Source :=
  [ mkSource (NHL_WEB_API_BASE +:+ "/skater-stats-leaders/current?categories=" +:+
              category +:+ "&limit=" +:+ pretty limit) "web" extract_web;
    mkSource (NHL_STATS_API_BASE +:+ "/leaders/skaters/" +:+ category +:+
              "?limit=" +:+ pretty limit) "stats-direct" extract_stats_direct;
    mkSource (NHL_STATS_API_BASE +:+ "/skater/summary?limit=" +:+ pretty limit +:+
              "&sort=" +:+ category +:+ "&cayenneExp=seasonId=20242025")
             "stats-filtered" extract_stats_filtered ].
End Sources.

Section Loop.
Context {W : Type}.
Variable fetch : W -> string -> FetchOutcome * W.
Variable positive_literal : string -> bool.

(** [extracted && extracted.leaders && extracted.leaders.length > 0] *)
Definition has_leaders (extracted : option Extracted) : bool :=
  match extracted with
  | None => false
  | Some e => truthy (leaders e) &&
              gt_zero positive_literal (prop (leaders e) "length")
  end.

(** The loop state: [result] and [errors]. *)
Definition LoopState : Type := option Extracted * list (string * Exn).

Definition try_source (endpoint : Source) (st : LoopState) : M W (Flow * LoopState) :=
  let '(result, errors) := st in
  try_catch
    (data ← makeNHLRequest fetch (url endpoint);
     if negb (truthy data) then mret (Next, (result, errors)) else
     extracted ← lift (extract endpoint data);
     if has_leaders extracted then mret (Break, (extracted, errors))
     else mret (Next, (result, errors)))
    (fun error =>
       _ ← log (EndpointError (format endpoint) error);
       mret (Next, (result, errors ++ [(format endpoint, error)]))).

(** The loop over [urls], from [result = null]. *)
Definition select_leaders (sources : list Source) : M W LoopState :=
  for_of sources try_source (None, []).
End Loop.

End SkaterLeaders.

(** ** get-player: resolution and team lookup ([src/demo.ts], lines 423-570) *)

Module GetPlayer.

Record Endpoint : Type := mkEndpoint {
  name : string;
  url : string;
  parsePlayer : JsVal -> Res JsVal
}.

(** Player Landing API: [data => data] *)
Definition parse_landing (data : JsVal) : Res JsVal := Ok data.

(** Stats API Player Info *)
Definition parse_stats_info (data : JsVal) : Res JsVal :=
  if negb (truthy data) then mret (JObj []) else
  d ← get data "data";
  if negb (truthy d) then mret (JObj []) else
  if strict_eq (prop d "length") (JNum 0) then mret (JObj []) else
  player ← get_first d;
  playerId ← (i ← get player "playerId"; or_else i (get player "id"));
  firstName ← get player "firstName";
  lastName ← get player "lastName";
  position ← get player "positionCode";
  sweaterNumber ← get player "sweaterNumber";
  birthDate ← get player "birthDate";
  birthCity ← get player "birthCity";
  birthCountry ← get player "birthCountry";
  height ← get player "height";
  weight ← get player "weight";
  teamId ← get player "teamId";
  shootsCatches ← get player "shootsCatches";
  rookie ← get player "rookie";
  mret (JObj [("playerId", playerId); ("firstName", firstName); ("lastName", lastName);
              ("fullName", str_plus (str_plus firstName (JStr " ")) lastName);
              ("position", position); ("sweaterNumber", sweaterNumber);
              ("birthDate", birthDate); ("birthCity", birthCity);
              ("birthCountry", birthCountry); ("height", height); ("weight", weight);
              ("teamId", teamId); ("shootsCatches", shootsCatches); ("rookie", rookie)]).

Definition endpoints (playerId : Z) : list Endpoint :=
  [ mkEndpoint "Player Landing API"
      (NHL_WEB_API_BASE +:+ "/player/" +:+ pretty playerId +:+ "/landing") parse_landing;
    mkEndpoint "Stats API Player Info"
      (NHL_STATS_API_BASE +:+ "/player/" +:+ pretty playerId) parse_stats_info ].

Definition stats_url (playerId : Z) : string :=
  NHL_WEB_API_BASE +:+ "/player/" +:+ pretty playerId +:+ "/game-log/now".

Definition teamUrls : list string :=
  [ NHL_WEB_API_BASE +:+ "/standings/now"; NHL_STATS_API_BASE +:+ "/team" ].

Definition roster_url (teamAbbrev : JsVal) : string :=
  NHL_WEB_API_BASE +:+ "/roster/" +:+ to_string teamAbbrev +:+ "/current".

Definition failure_text (playerId : Z) : string :=
  "Failed to retrieve data for player ID: " +:+ pretty playerId +:+
  ". The player ID may be invalid or NHL API might be unavailable.".

(** [parsedPlayer && (parsedPlayer.fullName ||
     (parsedPlayer.firstName && parsedPlayer.lastName))] *)
Definition identified (parsedPlayer : JsVal) : bool :=
  truthy parsedPlayer &&
  truthy (js_or (prop parsedPlayer "fullName")
                (js_and (prop parsedPlayer "firstName") (prop parsedPlayer "lastName"))).

(** The local variables [teamName] and [teamAbbrev]. *)
Record Team : Type := mkTeam { teamName : JsVal; teamAbbrev : JsVal }.

Definition unknown_team : Team := mkTeam (JStr "Unknown Team") (JStr "").

Definition is_unknown (t : Team) : bool := eq_str (teamName t) "Unknown Team".

(** A scan returns the locals it reached and the exception that stopped
    it, if any: assignments made before a throw stay. *)
Definition Scan : Type := Team * option Exn.

(** The inner loop [for (const team of division.teamRecords || [])]; its
    [break] leaves this loop only. *)
Fixpoint scan_teams (teamId : JsVal) (teams : list JsVal) (loc : Team) : Scan :=
  match teams with
  | [] => (loc, None)
  | team :: rest =>
      match get team "teamId" with
      | Throw e => (loc, Some e)
      | Ok tid =>
          if strict_eq tid teamId then
            (mkTeam (js_or (opt_get (prop team "teamName") "default") (JStr "Unknown Team"))
                    (js_or (opt_get (prop team "teamAbbrev") "default") (JStr "")),
             None)
          else scan_teams teamId rest loc
      end
  end.

(** The outer loop over [teamsData.standings.divisionStandings]. *)
Fixpoint scan_divisions (teamId : JsVal) (divisions : list JsVal) (loc : Team) : Scan :=
  match divisions with
  | [] => (loc, None)
  | division :: rest =>
      match (r ← get division "teamRecords"; iterate (js_or r (JArr []))) with
      | Throw e => (loc, Some e)
      | Ok teams =>
          match scan_teams teamId teams loc with
          | (loc', Some e) => (loc', Some e)
          | (loc', None) => scan_divisions teamId rest loc'
          end
      end
  end.

(** What one document of [teamUrls] does to the locals. *)
Definition read_teams (teamId teamsData : JsVal) (loc : Team) : Scan :=
  let divisionStandings := opt_get (prop teamsData "standings") "divisionStandings" in
  if truthy divisionStandings then
    match iterate divisionStandings with
    | Throw e => (loc, Some e)
    | Ok divisions => scan_divisions teamId divisions loc
    end
  else if truthy (prop teamsData "data") then
    match array_find (prop teamsData "data")
                     (fun t => i ← get t "id"; mret (strict_eq i teamId)) with
    | Throw e => (loc, Some e)
    | Ok team =>
        if truthy team then
          (mkTeam (js_or (js_or (prop team "name") (prop team "fullName"))
                         (JStr "Unknown Team"))
                  (js_or (js_or (prop team "triCode") (prop team "abbrev")) (JStr "")),
           None)
        else (loc, None)
    end
  else (loc, None).

(** [teamData.name || (teamData.locationName && teamData.teamName) ?
     `${teamData.locationName} ${teamData.teamName}` : teamAbbrev] *)
Definition roster_name (teamData teamAbbrev : JsVal) : JsVal :=
  if truthy (js_or (prop teamData "name")
                   (js_and (prop teamData "locationName") (prop teamData "teamName")))
  then JStr (to_string (prop teamData "locationName") +:+ " " +:+
             to_string (prop teamData "teamName"))
  else teamAbbrev.

(** The roster request that follows the lookup loop, if any: it needs a
    loop that ended without an exception, an abbreviation, and a team
    name that is still unknown. *)
Definition roster_request (st : Scan) : list string :=
  match st with
  | (loc, None) =>
      if truthy (teamAbbrev loc) && is_unknown loc then [roster_url (teamAbbrev loc)] else []
  | (_, Some _) => []
  end.

(** What the handler knows when it starts to format its answer. *)
Record Resolved : Type := mkResolved {
  playerData : JsVal;
  statsData : JsVal;
  team : Team
}.

Section Handler.
Context {W : Type}.
Variable fetch : W -> string -> FetchOutcome * W.

(** The loop state: [playerData] and [errorMessages]. *)
Definition LoopState : Type := JsVal * list (string * Exn).

Definition try_endpoint (endpoint : Endpoint) (st : LoopState) : M W (Flow * LoopState) :=
  let '(playerData, errorMessages) := st in
  try_catch
    (data ← makeNHLRequest fetch (url endpoint);
     if truthy data then
       parsedPlayer ← lift (parsePlayer endpoint data);
       if identified parsedPlayer then mret (Break, (parsedPlayer, errorMessages))
       else mret (Next, (playerData, errorMessages))
     else mret (Next, (playerData, errorMessages)))
    (fun error =>
       _ ← log (EndpointError (name endpoint) error);
       mret (Next, (playerData, errorMessages ++ [(name endpoint, error)]))).

(** The endpoint loop, from [playerData = null]. *)
Definition resolve (eps : list Endpoint) : M W LoopState :=
  for_of eps try_endpoint (JNull, []).

(** One iteration of [for (const url of teamUrls)].  A throw ends the
    loop and is remembered for the enclosing [catch]. *)
Definition lookup_step (teamId : JsVal) (url : string) (st : Scan) : M W (Flow * Scan) :=
  let '(loc, _) := st in
  teamsData ← makeNHLRequest fetch url;
  if negb (truthy teamsData) then mret (Next, (loc, None)) else
  match read_teams teamId teamsData loc with
  | (loc', Some e) => mret (Break, (loc', Some e))
  | (loc', None) =>
      if negb (is_unknown loc') then mret (Break, (loc', None))
      else mret (Next, (loc', None))
  end.

(** The body of [if (playerData.teamId) { try { ... } catch ... }]. *)
Definition lookup_team (teamId : JsVal) : M W Team :=
  st ← for_of teamUrls (lookup_step teamId) (unknown_team, None);
  match st with
  | (loc, Some e) => _ ← log (LookupError e); mret loc
  | (loc, None) =>
      if truthy (teamAbbrev loc) && is_unknown loc then
        teamData ← makeNHLRequest fetch (roster_url (teamAbbrev loc));
        if truthy teamData
        then mret (mkTeam (roster_name teamData (teamAbbrev loc)) (teamAbbrev loc))
        else mret loc
      else mret loc
  end.

(** The handler up to the point where it formats its answer, which
    requests nothing further: the failure text, or what was resolved. *)
Definition get_player (playerId : Z) : M W (string + Resolved) :=
  st ← resolve (endpoints playerId);
  let '(playerData, errorMessages) := st in
  if negb (truthy playerData) then
    _ ← log (Unresolved errorMessages);
    mret (inl (failure_text playerId))
  else
    statsData ← makeNHLRequest fetch (stats_url playerId);
    tm ← (if truthy (prop playerData "teamId")
          then lookup_team (prop playerData "teamId")
          else mret unknown_team);
    mret (inr (mkResolved playerData statsData tm)).
End Handler.

End GetPlayer.

(** ** get-current-standings ([unnamed/part_001], lines 250-313) *)

Module Standings.

(** An element of [StandingsResponse.standings], with the fields the
    handler reads.  [gamesPlayed] is sent by the upstream API although the
    interface does not declare it.  [teamName] is the [default] of the
    localized wrapper. *)
Record TeamRow : Type := mkTeamRow {
  divisionName : option string;
  teamName : option string;
  gamesPlayed : option Z;
  wins : option Z;
  losses : option Z;
  otLosses : option Z;
  points : option Z;
  goalsFor : option Z;
  goalAgainst : option Z
}.

(** [StandingsResponse]: [standings] may be missing. *)
Record StandingsResponse : Type := mkStandingsResponse {
  standings : option (list TeamRow)
}.

(** [n || 0] on an optional number *)
Definition num_or_zero (n : option Z) : Z := default 0 n.

(** [s || d] on an optional string *)
Definition str_or (s : option string) (d : string) : string :=
  match s with
  | Some x => if String.eqb x "" then d else x
  | None => d
  end.

(** [divisionMap]: a [Map] keeps its keys in insertion order, and each
    key's array in push order. *)
Fixpoint push_team (division : string) (team : TeamRow)
    (divisionMap : list (string * list TeamRow)) : list (string * list TeamRow) :=
  match divisionMap with
  | [] => [(division, [team])]
  | (d, teams) :: rest =>
      if String.eqb d division then (d, teams ++ [team]) :: rest
      else (d, teams) :: push_team division team rest
  end.

(** [team.divisionName || "Unknown Division"] *)
Definition division_of (team : TeamRow) : string :=
  str_or (divisionName team) "Unknown Division".

Definition group_by_division (rows : list TeamRow) : list (string * list TeamRow) :=
  fold_left (fun divisionMap team => push_team (division_of team) team divisionMap)
            rows [].

(** [divisionMap.get(division)], empty when the key is missing. *)
Fixpoint teams_in (division : string) (divisionMap : list (string * list TeamRow))
    : list TeamRow :=
  match divisionMap with
  | [] => []
  | (d, teams) :: rest => if String.eqb d division then teams else teams_in division rest
  end.

(** [(b.points || 0) - (a.points || 0) <= 0]: [a] may stay before [b]. *)
Definition before (a b : TeamRow) : bool :=
  num_or_zero (points b) <=? num_or_zero (points a).

(** [a] has at least the points of [b]. *)
Definition at_least (a b : TeamRow) : Prop :=
  num_or_zero (points b) <= num_or_zero (points a).

Fixpoint insert_team (team : TeamRow) (sorted : list TeamRow) : list TeamRow :=
  match sorted with
  | [] => [team]
  | u :: rest => if before team u then team :: sorted else u :: insert_team team rest
  end.

(** [teams.sort((a, b) => (b.points || 0) - (a.points || 0))].  The sort
    is stable and the comparator is a total preorder on rows, so the
    result is the one stable arrangement, which insertion from the right
    computes. *)
Definition sort_by_points (teams : list TeamRow) : list TeamRow :=
  foldr insert_team [] teams.

(** The values interpolated into a row, in column order. *)
Definition row_cells (team : TeamRow) : list string :=
  let gp := num_or_zero (wins team) + num_or_zero (losses team) +
            num_or_zero (otLosses team) in
  [ str_or (teamName team) "Unknown"; pretty gp;
    pretty (num_or_zero (wins team)); pretty (num_or_zero (losses team));
    pretty (num_or_zero (otLosses team)); pretty (num_or_zero (points team));
    pretty (num_or_zero (goalsFor team)); pretty (num_or_zero (goalAgainst team)) ].

Definition format_row (team : TeamRow) : string := join " | " (row_cells team).

Definition newline : string := String (ascii_of_nat 10) EmptyString.

Definition division_header (division : string) : list string :=
  [ newline +:+ "## " +:+ division +:+ " Division";
    "Team | GP | W | L | OTL | PTS | GF | GA";
    "-----|----|----|----|----|-----|----|----|" ].

(** The lines pushed for one entry of [divisionMap]. *)
Definition format_division (entry : string * list TeamRow) : list string :=
  division_header entry.1 ++ map format_row (sort_by_points entry.2).

(** [formattedStandings] *)
Definition format_standings (response : StandingsResponse) : list string :=
  match standings response with
  | Some (team :: rest) =>
      concat (map format_division (group_by_division (team :: rest)))
  | _ => ["No standings data available."]
  end.

(** The text of the answer, for the outcome of the typed request. *)
Definition get_current_standings (response : option StandingsResponse) : string :=
  match response with
  | None => "Failed to retrieve NHL standings. The NHL API might be unavailable."
  | Some r => join newline (format_standings r)
  end.

End Standings.

(** ** Padding ([String.prototype.padStart] and [padEnd]) *)

Module Pad.

Fixpoint repeat_char (c : ascii) (n : nat) : string :=
  match n with
  | O => EmptyString
  | S n' => String c (repeat_char c n')
  end.

(** [s.padStart(n)]: spaces in front, up to length [n]. *)
Definition padStart (n : nat) (s : string) : string :=
  repeat_char " " (n - String.length s) +:+ s.

(** [s.padEnd(n)]: spaces behind, up to length [n]. *)
Definition padEnd (n : nat) (s : string) : string :=
  s +:+ repeat_char " " (n - String.length s).

End Pad.

(** ** get-skater-leaders: the answer ([src/demo.ts], lines 1018-1116) *)

Module LeadersAnswer.

Definition failure_text (category : string) : string :=
  "Failed to retrieve " +:+ category +:+
  " leaders. The NHL API endpoints may be unavailable or the category name may be invalid. Valid categories are: points, goals, assists, plusMinus, powerPlayGoals, gameWinningGoals, shots.".

Definition no_leaders_text (category : string) : string :=
  "No statistical leaders found for category: " +:+ category.

(** [typeof v === 'string'] *)
Definition is_string (v : JsVal) : bool := String.eqb (typeof v) "string".

(** [v !== undefined] *)
Definition defined (v : JsVal) : bool :=
  match v with JUndef => false | _ => true end.

(** [safeString(v)] with the default of its second parameter, as text. *)
Definition safe (v : JsVal) : string :=
  to_string (SafeString.safeString v SafeString.default_na).

Section Rows.
Variable category : string.

(** The name shown for a leader. *)
Definition leader_name (leader : JsVal) (index : nat) : Res string :=
  fullName ← get leader "fullName";
  if is_string fullName then mret (to_string fullName) else
  skaterFullName ← get leader "skaterFullName";
  if is_string skaterFullName then mret (to_string skaterFullName) else
  both ← (f ← get leader "firstName"; and_then f (get leader "lastName"));
  if truthy both then
    firstName ← get leader "firstName";
    lastName ← get leader "lastName";
    mret (safe firstName +:+ " " +:+ safe lastName)
  else
    id ← (p ← get leader "playerId";
          or_else p (i ← get leader "id";
                     or_else i (Ok (JNum (Z.of_nat index + 1)))));
    mret ("Player #" +:+ to_string id).

(** [leader.team && typeof leader.team.k === 'string'] *)
Definition team_has (leader : JsVal) (k : string) : Res bool :=
  t ← get leader "team";
  if truthy t then (t' ← get leader "team"; v ← get t' k; mret (is_string v))
  else mret false.

(** The team abbreviation shown for a leader. *)
Definition leader_team (leader : JsVal) : Res string :=
  teamAbbrev ← get leader "teamAbbrev";
  if is_string teamAbbrev then mret (to_string teamAbbrev) else
  teamAbbrevs ← get leader "teamAbbrevs";
  if is_string teamAbbrevs then mret (to_string teamAbbrevs) else
  tri ← team_has leader "triCode";
  if (tri : bool) then (t ← get leader "team"; v ← get t "triCode"; mret (to_string v)) else
  ab ← team_has leader "abbrev";
  if (ab : bool) then (t ← get leader "team"; v ← get t "abbrev"; mret (to_string v)) else
  mret "N/A".

(** [category === name && leader[name] !== undefined] *)
Definition own_stat (leader : JsVal) (name : string) : Res bool :=
  if String.eqb category name then (v ← get leader name; mret (defined v))
  else mret false.

(** The value shown for a leader. *)
Definition leader_value (leader : JsVal) : Res string :=
  value ← get leader "value";
  if defined value then mret (safe value) else
  p ← own_stat leader "points";
  if (p : bool) then (v ← get leader "points"; mret (safe v)) else
  g ← own_stat leader "goals";
  if (g : bool) then (v ← get leader "goals"; mret (safe v)) else
  a ← own_stat leader "assists";
  if (a : bool) then (v ← get leader "assists"; mret (safe v)) else
  pm ← own_stat leader "plusMinus";
  if (pm : bool) then (v ← get leader "plusMinus"; mret (safe v)) else
  c ← get leader category;
  if defined c then mret (safe c) else mret "0".

(** The value column without its four branches by category: the generic
    branch [leader[category]] alone.  Not in the source; compared with
    [leader_value] below. *)
Definition generic_value (leader : JsVal) : Res string :=
  value ← get leader "value";
  if defined value then mret (safe value) else
  c ← get leader category;
  if defined c then mret (safe c) else mret "0".

(** The callback of [leaders.map]. *)
Definition leader_row (leader : JsVal) (index : nat) : Res string :=
  name ← leader_name leader index;
  team ← leader_team leader;
  value ← leader_value leader;
  mret (Pad.padStart 2 (pretty (Z.of_nat index + 1)) +:+ ". " +:+
        Pad.padEnd 25 name +:+ " | " +:+
        Pad.padEnd 4 team +:+ " | " +:+
        value).

(** The rows of the elements from index [index] on. *)
Fixpoint rows_from (index : nat) (elems : list JsVal) : Res (list string) :=
  match elems with
  | [] => Ok []
  | leader :: rest =>
      row ← leader_row leader index;
      more ← rows_from (S index) rest;
      mret (row :: more)
  end.

(** [leaders.map(...)]: only arrays have the method. *)
Definition leader_rows (leaders : JsVal) : Res (list string) :=
  match leaders with
  | JArr elems => rows_from 0 elems
  | _ => Throw (TypeError "map is not a function")
  end.

Definition header_text (e : SkaterLeaders.Extracted) : string :=
  "NHL Leaders - " +:+ to_string (SkaterLeaders.categoryLabel e) +:+
  " (" +:+ to_string (SkaterLeaders.season e) +:+ ")".

(** The part of the handler after the URL loop. *)
Definition answer (result : option SkaterLeaders.Extracted) : Res string :=
  match result with
  | None => Ok (failure_text category)
  | Some e =>
      len ← get (SkaterLeaders.leaders e) "length";
      if strict_eq len (JNum 0) then mret (no_leaders_text category) else
      leaderRows ← leader_rows (SkaterLeaders.leaders e);
      mret (join "\n"
              (header_text e ::
               Pad.repeat_char "=" (String.length (header_text e)) ::
               leaderRows))
  end.
End Rows.

Section Handler.
Context {W : Type}.
Variable fetch : W -> string -> FetchOutcome * W.
Variable positive_literal : string -> bool.

Definition get_skater_leaders (category : string) (limit : Z) : M W string :=
  st ← SkaterLeaders.select_leaders fetch positive_literal
         (SkaterLeaders.urls category limit);
  lift (answer category st.1).
End Handler.

End LeadersAnswer.

(** ** get-player: the answer ([src/demo.ts], lines 572-648)

    The template literals of this part convert values the documents
    choose freely (the team name, the statistics); they are converted
    with [to_text], which can throw. *)

Module PlayerAnswer.

(** [safeString(v, d)] as text. *)
Definition safe (v : JsVal) (d : string) : string :=
  to_string (SafeString.safeString v d).

(** [`  Label: ${stats.k || 0}`] *)
Definition stat_line (label : string) (stats : JsVal) (k : string) : Res string :=
  v ← get stats k;
  text ← to_text (js_or v (JNum 0));
  mret ("  " +:+ label +:+ ": " +:+ text).

Definition goalie_lines (stats : JsVal) : Res (list string) :=
  l1 ← stat_line "Games Played" stats "gamesPlayed";
  l2 ← stat_line "Wins" stats "wins";
  l3 ← stat_line "Losses" stats "losses";
  l4 ← stat_line "OT Losses" stats "otLosses";
  l5 ← stat_line "Save Percentage" stats "savePctg";
  l6 ← stat_line "Goals Against Average" stats "goalsAgainstAverage";
  l7 ← stat_line "Shutouts" stats "shutouts";
  mret ["Season Stats (Goalie):"; l1; l2; l3; l4; l5; l6; l7].

Definition skater_lines (stats : JsVal) : Res (list string) :=
  l1 ← stat_line "Games Played" stats "gamesPlayed";
  l2 ← stat_line "Goals" stats "goals";
  l3 ← stat_line "Assists" stats "assists";
  l4 ← stat_line "Points" stats "points";
  l5 ← stat_line "Plus/Minus" stats "plusMinus";
  l6 ← stat_line "Penalty Minutes" stats "pim";
  l7 ← stat_line "Power Play Goals" stats "powerPlayGoals";
  l8 ← stat_line "Game Winning Goals" stats "gameWinningGoals";
  l9 ← stat_line "Shots" stats "shots";
  pct ← get stats "shootingPctg";
  l10 ← (if truthy pct then
           pct' ← get stats "shootingPctg"; text ← to_text pct'; mret (text +:+ "%")
         else mret "0%");
  mret ["Season Stats (Skater):"; l1; l2; l3; l4; l5; l6; l7; l8; l9;
        "  Shooting Percentage: " +:+ l10].

Section Format.
Variable playerId : Z.

Definition player_name (playerData : JsVal) : Res string :=
  fullName ← get playerData "fullName";
  if LeadersAnswer.is_string fullName then mret (to_string fullName) else
  firstName ← get playerData "firstName";
  lastName ← get playerData "lastName";
  if LeadersAnswer.is_string firstName && LeadersAnswer.is_string lastName
  then mret (to_string firstName +:+ " " +:+ to_string lastName)
  else mret ("Player #" +:+ pretty playerId).

Definition birth_place (playerData : JsVal) : Res string :=
  city ← get playerData "birthCity";
  country ← get playerData "birthCountry";
  let birthCity := safe city "Unknown City" in
  let birthCountry := safe country "Unknown Country" in
  mret (birthCity +:+
        (if negb (String.eqb birthCountry "Unknown Country")
         then ", " +:+ birthCountry else "")).

(** [playerInfo] before the statistics. *)
Definition base_lines (playerData teamName : JsVal) : Res (list string) :=
  playerName ← player_name playerData;
  birthPlace ← birth_place playerData;
  position ← get playerData "position";
  sweaterNumber ← get playerData "sweaterNumber";
  team ← to_text teamName;
  birthDate ← get playerData "birthDate";
  height ← get playerData "height";
  weight ← get playerData "weight";
  shootsCatches ← get playerData "shootsCatches";
  rookie ← get playerData "rookie";
  mret [ "Name: " +:+ playerName;
         "Position: " +:+ safe position "Unknown";
         "Jersey Number: " +:+ safe sweaterNumber "N/A";
         "Team: " +:+ team;
         "Birth Date: " +:+ safe birthDate "Unknown";
         "Birth Place: " +:+ birthPlace;
         "Height: " +:+ safe height "N/A";
         "Weight: " +:+ (if truthy weight then safe weight "N/A" +:+ " lbs" else "N/A");
         "Shoots/Catches: " +:+ safe shootsCatches "N/A";
         "Rookie: " +:+ (if strict_eq rookie (JBool true) then "Yes" else "No") ].

(** [playerInfo] after the optional statistics block. *)
Definition player_info (resolved : GetPlayer.Resolved) : Res (list string) :=
  let playerData := GetPlayer.playerData resolved in
  let statsData := GetPlayer.statsData resolved in
  lines ← base_lines playerData (GetPlayer.teamName (GetPlayer.team resolved));
  has ← and_then statsData (get statsData "stats");
  if truthy has then
    position ← get playerData "position";
    stats ← get statsData "stats";
    more ← (if eq_str position "G" then goalie_lines stats else skater_lines stats);
    mret (lines ++ more)
  else mret lines.
End Format.

Section Handler.
Context {W : Type}.
Variable fetch : W -> string -> FetchOutcome * W.

(** The whole handler. *)
Definition get_player_text (playerId : Z) : M W string :=
  r ← GetPlayer.get_player fetch playerId;
  match r with
  | inl text => mret text
  | inr resolved =>
      playerInfo ← lift (player_info playerId resolved);
      mret (join "\n" playerInfo)
  end.
End Handler.

End PlayerAnswer.

(** ** get-team in the later revision ([unnamed/part_001], lines 314-507) *)

Module GetTeamLater.

Section Parsers.
Variable teamCode : string.

(** [t.triCode === teamCode || t.rawTricode === teamCode ||
     t.abbrev === teamCode || t.teamAbbrev?.default === teamCode] *)
Definition matches_team_info (t : JsVal) : Res bool :=
  triCode ← get t "triCode";
  if eq_str triCode teamCode then mret true else
  rawTricode ← get t "rawTricode";
  if eq_str rawTricode teamCode then mret true else
  abbrev ← get t "abbrev";
  if eq_str abbrev teamCode then mret true else
  teamAbbrev ← get t "teamAbbrev";
  mret (eq_str (opt_get teamAbbrev "default") teamCode).

(** [m.k || (m.sub && m.sub.k') || d] *)
Definition or_nested_or (m : JsVal) (k sub k' : string) (d : string) : Res JsVal :=
  v ← GetTeam.or_nested m k sub k'; or_else v (Ok (JStr d)).

(** Team Info API *)
Definition parse_team_info (data : JsVal) : Res (gmap string JsVal) :=
  teams ← (d ← get data "data"; or_else d (Ok (JArr [])));
  matchingTeam ← array_find teams matches_team_info;
  if negb (truthy matchingTeam) then mret (GetTeam.obj []) else
  teamId ← (i ← get matchingTeam "id"; or_else i (get matchingTeam "teamId"));
  nm ← (n ← get matchingTeam "fullName"; or_else n (get matchingTeam "name"));
  locationName ← get matchingTeam "locationName";
  teamName ← get matchingTeam "teamName";
  divName ← or_nested_or matchingTeam "divisionName" "division" "name" "Unknown";
  divShort ← or_nested_or matchingTeam "divisionAbbrev" "division" "nameShort" "";
  confName ← or_nested_or matchingTeam "conferenceName" "conference" "name" "Unknown";
  confShort ← or_nested_or matchingTeam "conferenceAbbrev" "conference" "nameShort" "";
  mret (GetTeam.obj
          [("teamId", teamId); ("name", nm); ("abbrev", JStr teamCode);
           ("locationName", locationName); ("teamName", teamName);
           ("division", JObj [("name", divName); ("shortName", divShort)]);
           ("conference", JObj [("name", confName); ("shortName", confShort)])]).

(** The search loop of the Standings API parser over the flat
    [standings] array: the first team that matches, or [undefined]. *)
Fixpoint search_standings (standings : list JsVal) : Res JsVal :=
  match standings with
  | [] => Ok JUndef
  | team :: rest =>
      match GetTeam.matches_standings teamCode team with
      | Throw e => Throw e
      | Ok true => Ok team
      | Ok false => search_standings rest
      end
  end.

(** Standings API *)
Definition parse_standings (data : JsVal) : Res (gmap string JsVal) :=
  standings ← (s ← get data "standings"; or_else s (Ok (JArr [])));
  teams ← iterate standings;
  foundTeam ← search_standings teams;
  if negb (truthy foundTeam) then mret (GetTeam.obj []) else
  teamId ← (i ← get foundTeam "teamId"; or_else i (get foundTeam "id"));
  nm ← (tn ← get foundTeam "teamName";
        d ← and_then tn (tn' ← get foundTeam "teamName"; get tn' "default");
        or_else d (get foundTeam "name"));
  locationName ← (p ← get foundTeam "placeName"; mret (opt_get p "default"));
  teamName ← (c ← get foundTeam "teamCommonName"; mret (opt_get c "default"));
  divName ← (n ← get foundTeam "divisionName"; or_else n (Ok (JStr "Unknown Division")));
  divShort ← (a ← get foundTeam "divisionAbbrev"; or_else a (Ok (JStr "")));
  confName ← (n ← get foundTeam "conferenceName";
              or_else n (a ← get foundTeam "conferenceAbbrev";
                         if eq_str a "E" then mret (JStr "Eastern") else
                         a' ← get foundTeam "conferenceAbbrev";
                         if eq_str a' "W" then mret (JStr "Western")
                         else mret (JStr "Unknown")));
  confShort ← (a ← get foundTeam "conferenceAbbrev"; or_else a (Ok (JStr "")));
  wins ← GetTeam.or_zero foundTeam "wins";
  losses ← GetTeam.or_zero foundTeam "losses";
  otLosses ← GetTeam.or_zero foundTeam "otLosses";
  points ← GetTeam.or_zero foundTeam "points";
  mret (GetTeam.obj
          [("teamId", teamId); ("name", nm); ("abbrev", JStr teamCode);
           ("locationName", locationName); ("teamName", teamName);
           ("division", JObj [("name", divName); ("shortName", divShort)]);
           ("conference", JObj [("name", confName); ("shortName", confShort)]);
           ("record", JObj [("wins", wins); ("losses", losses);
                            ("otLosses", otLosses); ("points", points)])]).

(** The endpoints, in the order they are tried. *)
Definition endpoints : list GetTeam.Endpoint :=
  [ GetTeam.mkEndpoint "Team Info API" (NHL_STATS_API_BASE +:+ "/team") parse_team_info;
    GetTeam.mkEndpoint "Standings API" (NHL_WEB_API_BASE +:+ "/standings/now")
                       parse_standings ].
End Parsers.

Definition newline : string := String (ascii_of_nat 10) EmptyString.

Section Handler.
Context {W : Type}.
Variable fetch : W -> string -> FetchOutcome * W.
Variable positive_literal : string -> bool.

(** The part of the handler after the endpoint loop; it differs from
    the earlier one in the separator of the lines. *)
Definition answer (teamCode : string) (st : GetTeam.LoopState) : M W string :=
  let '(teamData, errorMessages) := st in
  if negb (truthy (GetTeam.field teamData "name")) then
    _ ← log (Unresolved errorMessages);
    mret (GetTeam.failure_text teamCode)
  else
    statsData ← makeNHLRequest fetch (GetTeam.stats_url teamCode);
    teamInfo ← lift (GetTeam.team_info positive_literal teamCode teamData statsData);
    mret (join newline teamInfo).

(** The handler: the same endpoint loop over the two later endpoints. *)
Definition get_team (teamAbbrev : string) : M W string :=
  let teamCode := Str.trim (Str.toUpperCase teamAbbrev) in
  st ← GetTeam.resolve fetch (endpoints teamCode);
  answer teamCode st.
End Handler.

End GetTeamLater.

(** ** Sample documents and worlds *)

Module Samples.

(** A world that serves fixed pages by URL and fails on any other URL. *)
Fixpoint page (pages : list (string * FetchOutcome)) (url : string) : FetchOutcome :=
  match pages with
  | [] => NetFail
  | (u, out) :: rest => if String.eqb u url then out else page rest url
  end.

Definition serve (pages : list (string * FetchOutcome)) (w : unit) (url : string)
    : FetchOutcome * unit :=
  (page pages url, w).

Definition ok (body : JsVal) : FetchOutcome := Response 200 (Some body).

(** No numeric string is above zero: a stand-in for StringToNumber in
    worlds whose documents contain no numeric strings. *)
Definition no_literal (s : string) : bool := false.

Definition roster_url : string := "https://api-web.nhle.com/v1/roster/TOR/current".
Definition club_stats_url : string := "https://api-web.nhle.com/v1/club-stats/TOR/now".
Definition team_info_url : string := "https://api.nhle.com/stats/rest/en/team".
Definition standings_url : string := "https://api-web.nhle.com/v1/standings/now".

Definition roster_name_only : JsVal := JObj [("name", JStr "Toronto Maple Leafs")].

Definition roster_complete : JsVal :=
  JObj [("name", JStr "Toronto Maple Leafs");
        ("division", JObj [("name", JStr "Atlantic")]);
        ("conference", JObj [("name", JStr "Eastern")])].

Definition club_stats_short_name : JsVal := JObj [("teamName", JStr "Leafs")].

(** A standings document whose row for TOR carries no [wins]. *)
Definition standings_row : JsVal :=
  JObj [("teamAbbrev", JObj [("default", JStr "TOR")]);
        ("teamName", JObj [("default", JStr "Toronto Maple Leafs")]);
        ("losses", JNum 20); ("otLosses", JNum 5); ("points", JNum 75)].

Definition standings_doc : JsVal :=
  JObj [("standings",
         JObj [("divisionStandings",
                JArr [JObj [("divisionName", JStr "Atlantic");
                            ("conferenceAbbrev", JStr "E");
                            ("teamRecords", JArr [standings_row])]])])].

(** Roster and club statistics disagree on the name. *)
Definition world_two_names : unit -> string -> FetchOutcome * unit :=
  serve [(roster_url, ok roster_name_only); (club_stats_url, ok club_stats_short_name)].

(** The first endpoint alone is complete. *)
Definition world_roster_complete : unit -> string -> FetchOutcome * unit :=
  serve [(roster_url, ok roster_complete)].

(** Only the standings endpoint answers. *)
Definition world_standings_only : unit -> string -> FetchOutcome * unit :=
  serve [(standings_url, ok standings_doc)].

(** Nothing answers. *)
Definition world_down : unit -> string -> FetchOutcome * unit := serve [].

(** The roster answers with a name, and the club statistics carry a
    first row that is [null]. *)
Definition club_stats_null_row : JsVal := JObj [("teamStats", JArr [JNull])].

Definition world_null_row : unit -> string -> FetchOutcome * unit :=
  serve [(roster_url, ok roster_name_only); (club_stats_url, ok club_stats_null_row)].

(** Two Atlantic rows, the lower one first; the upstream [gamesPlayed]
    of the first disagrees with its record. *)
Definition row_bos : Standings.TeamRow :=
  Standings.mkTeamRow (Some "Atlantic") (Some "Boston Bruins") (Some 99)
                      (Some 38) (Some 20) None (Some 80) (Some 200) (Some 180).

Definition row_tor : Standings.TeamRow :=
  Standings.mkTeamRow (Some "Atlantic") (Some "Toronto Maple Leafs") None
                      (Some 42) (Some 18) (Some 4) (Some 88) (Some 230) (Some 190).

Definition standings_response : Standings.StandingsResponse :=
  Standings.mkStandingsResponse (Some [row_bos; row_tor]).

(** Leaders in goals: the web API knows the category but lists nobody,
    the stats API lists two players. *)
Definition web_no_leaders : JsVal :=
  JObj [("categories", JArr [JObj [("categoryName", JStr "goals"); ("leaders", JArr [])]])].

Definition stats_two_leaders : JsVal :=
  JObj [("data", JArr [JObj [("fullName", JStr "Auston Matthews"); ("goals", JNum 69)];
                       JObj [("fullName", JStr "Sam Reinhart"); ("goals", JNum 57)]])].

Definition world_leaders : unit -> string -> FetchOutcome * unit :=
  serve [("https://api-web.nhle.com/v1/skater-stats-leaders/current?categories=goals&limit=10",
          ok web_no_leaders);
         ("https://api.nhle.com/stats/rest/en/leaders/skaters/goals?limit=10",
          ok stats_two_leaders)].

(** The value of a pure computation, or [d] if it threw. *)
Definition value {A} (d : A) (r : Res A) : A :=
  match r with Ok a => a | Throw _ => d end.

(** The value a run returned, or [d] if it threw. *)
Definition returned {W A} (d : A) (r : Res A * St W) : A :=
  match r.1 with Ok a => a | Throw _ => d end.

(** The URLs a run requested. *)
Definition trace {W A} (r : Res A * St W) : list string := fetched r.2.

(** [teamData] at the end of the get-team loop over the first [n]
    endpoints for TOR. *)
Definition team_data_after (world : unit -> string -> FetchOutcome * unit) (n : nat)
    : gmap string JsVal :=
  (returned (∅, []) (GetTeam.resolve world (take n (GetTeam.endpoints "TOR")) (start tt))).1.

End Samples.

(** The team name of the locals is truthy. *)
Definition named (loc : GetPlayer.Team) : Prop := truthy (GetPlayer.teamName loc) = true.

(** ** More sample documents and worlds *)

Module Cases.

(** The team directory answers with a [data] that is not an array. *)
Definition team_info_not_array : JsVal := JObj [("data", JNum 5)].

Definition world_team_info_not_array : unit -> string -> FetchOutcome * unit :=
  Samples.serve [(Samples.team_info_url, Samples.ok team_info_not_array)].

(** A player known to the landing endpoint, and standings that know the
    player's team. *)
Definition landing_url : string := "https://api-web.nhle.com/v1/player/8478402/landing".

Definition landing_doc : JsVal :=
  JObj [("fullName", JStr "Connor McDavid"); ("position", JStr "C");
        ("teamId", JNum 22); ("rookie", JBool false)].

Definition team_standings_doc : JsVal :=
  JObj [("standings",
         JObj [("divisionStandings",
                JArr [JObj [("teamRecords",
                            JArr [JObj [("teamId", JNum 22);
                                        ("teamName", JObj [("default", JStr "Edmonton Oilers")]);
                                        ("teamAbbrev", JObj [("default", JStr "EDM")])]])]])])].

Definition world_player : unit -> string -> FetchOutcome * unit :=
  Samples.serve [(landing_url, Samples.ok landing_doc);
                 (Samples.standings_url, Samples.ok team_standings_doc)].

(** A directory entry of the later revision without division data. *)
Definition team_info_later_doc : JsVal :=
  JObj [("data", JArr [JObj [("triCode", JStr "TOR");
                             ("fullName", JStr "Toronto Maple Leafs")]])].

Definition world_team_info_later : unit -> string -> FetchOutcome * unit :=
  Samples.serve [(Samples.team_info_url, Samples.ok team_info_later_doc)].

(** Club statistics whose first row carries [losses] only. *)
Definition club_stats_no_wins : JsVal :=
  JObj [("teamName", JStr "Leafs");
        ("teamStats", JArr [JObj [("losses", JNum 20)]])].

(** The web API lists one leader in goals, and it is [null]. *)
Definition web_null_leader : JsVal :=
  JObj [("categories",
         JArr [JObj [("categoryName", JStr "goals"); ("leaders", JArr [JNull])]])].

Definition world_null_leader : unit -> string -> FetchOutcome * unit :=
  Samples.serve
    [("https://api-web.nhle.com/v1/skater-stats-leaders/current?categories=goals&limit=10",
      Samples.ok web_null_leader)].

(** Standings whose name for the player's team is an object with a
    [toString] key of its own. *)
Definition team_standings_unprintable : JsVal :=
  JObj [("standings",
         JObj [("divisionStandings",
                JArr [JObj [("teamRecords",
                            JArr [JObj [("teamId", JNum 22);
                                        ("teamName",
                                         JObj [("default", JObj [("toString", JNum 1)])])]])]])])].

Definition world_player_unprintable : unit -> string -> FetchOutcome * unit :=
  Samples.serve [(landing_url, Samples.ok landing_doc);
                 (Samples.standings_url, Samples.ok team_standings_unprintable)].


End Cases.

(** * Properties *)

(** ** The transport *)

Section TransportFacts.
Context {W : Type}.
Variable fetch : W -> string -> FetchOutcome * W.

(** makeNHLRequest never throws: it returns what was delivered, [null]
    for a failure, and logs the failure. *)
Lemma makeNHLRequest_spec url (s : St W) :
  makeNHLRequest fetch url s =
  (Ok (delivered (fetch (world s) url).1),
   requested s url (fetch (world s) url).1 (fetch (world s) url).2).
Proof.
  unfold makeNHLRequest, try_catch, request, requested.
  destruct (fetch (world s) url) as [out w']; simpl.
  destruct out as [|status [v|]]; simpl;
    try destruct (status_ok status); simpl;
    rewrite ?app_nil_r; reflexivity.
Qed.

Lemma failure_delivers_null out : is_Some (failure out) -> delivered out = JNull.
Proof.
  destruct out as [|status [v|]]; simpl; try reflexivity;
    destruct (status_ok status); simpl; try reflexivity.
  intros [e He]; discriminate.
Qed.

Lemma for_of_cons {A S} (x : A) (l : list A) (body : A -> S -> M W (Flow * S)) st
    (s : St W) :
  for_of (x :: l) body st s =
  match body x st s with
  | (Ok (Next, st'), s') => for_of l body st' s'
  | (Ok (Break, st'), s') => (Ok st', s')
  | (Throw e, s') => (Throw e, s')
  end.
Proof.
  simpl. unfold mbind, M_bind.
  destruct (body x st s) as [[[[|] st']|e] s']; reflexivity.
Qed.
End TransportFacts.

(** ** get-team: the merge step *)

Section MergeFacts.
Import GetTeam.

Lemma lookup_merge (teamData parsedTeam : gmap string JsVal) (k : string) :
  merge teamData parsedTeam !! k =
  match parsedTeam !! k with
  | Some v => if is_nullish v then teamData !! k else Some v
  | None => teamData !! k
  end.
Proof.
  unfold merge. rewrite lookup_union, map_lookup_filter.
  destruct (parsedTeam !! k) as [v|] eqn:Hk; simpl.
  - destruct (is_nullish v) eqn:Hv; simpl;
      destruct (teamData !! k); reflexivity.
  - destruct (teamData !! k); reflexivity.
Qed.

Lemma field_merge (teamData parsedTeam : gmap string JsVal) (k : string) :
  field (merge teamData parsedTeam) k =
  if is_nullish (field parsedTeam k) then field teamData k else field parsedTeam k.
Proof.
  unfold field. rewrite lookup_merge.
  destruct (parsedTeam !! k) as [v|]; simpl; [|reflexivity].
  destruct (is_nullish v); reflexivity.
Qed.

(** The code's merge and the specification's rule read the same wherever
    at most one side has a value; they differ where both have one. *)
Lemma merge_agrees_with_first_writer_wins (teamData parsedTeam : gmap string JsVal) k :
  is_nullish (field teamData k) = true \/ is_nullish (field parsedTeam k) = true ->
  is_nullish (field (merge teamData parsedTeam) k) = false ->
  field (merge teamData parsedTeam) k = field (first_writer_wins teamData parsedTeam) k.
Proof.
  rewrite field_merge. unfold first_writer_wins, field.
  rewrite lookup_union, map_lookup_filter.
  destruct (teamData !! k) as [v|], (parsedTeam !! k) as [u|]; simpl;
    try destruct (is_nullish v) eqn:Hv; try destruct (is_nullish u) eqn:Hu; simpl;
    intros [H|H] Hm; congruence.
Qed.

Lemma merge_empty_r (teamData : gmap string JsVal) : merge teamData ∅ = teamData.
Proof.
  apply map_eq. intros k. rewrite lookup_merge, lookup_empty. reflexivity.
Qed.

Lemma complete_empty : complete ∅ = false.
Proof. reflexivity. Qed.

(** The completeness check reads [name], [division] and [conference]
    only. *)
Lemma complete_insert_other (teamData : gmap string JsVal) k v :
  k ≠ "name" -> k ≠ "division" -> k ≠ "conference" ->
  complete (<[k := v]> teamData) = complete teamData.
Proof.
  intros. unfold complete, field. rewrite !lookup_insert_ne by done. reflexivity.
Qed.
End MergeFacts.

(** ** get-team: the endpoint loop *)

Section GetTeamLoop.
Import GetTeam.
Context {W : Type}.
Variable fetch : W -> string -> FetchOutcome * W.

(** One iteration, spelled out by cases on what was delivered. *)
Lemma try_endpoint_spec endpoint teamData errorMessages (s : St W) :
  let out := (fetch (world s) (url endpoint)).1 in
  let s1 := requested s (url endpoint) out (fetch (world s) (url endpoint)).2 in
  try_endpoint fetch endpoint (teamData, errorMessages) s =
  if truthy (delivered out) then
    match parseTeam endpoint (delivered out) with
    | Ok parsedTeam =>
        (Ok (if complete (merge teamData parsedTeam) then Break else Next,
             (merge teamData parsedTeam, errorMessages)), s1)
    | Throw e =>
        (Ok (Next, (teamData, errorMessages ++ [(name endpoint, e)])),
         mkSt (world s1) (fetched s1) (console s1 ++ [EndpointError (name endpoint) e]))
    end
  else (Ok (Next, (teamData, errorMessages)), s1).
Proof.
  simpl. unfold try_endpoint, try_catch, mbind, M_bind.
  rewrite makeNHLRequest_spec.
  destruct (truthy (delivered _)); [|reflexivity].
  unfold lift. destruct (parseTeam endpoint _) as [parsedTeam|e]; simpl.
  - destruct (complete (merge teamData parsedTeam)); reflexivity.
  - reflexivity.
Qed.

(** An iteration never throws, requests exactly its own URL, and leaves
    [teamData] alone or merges one parsed record into it. *)
Lemma try_endpoint_step endpoint teamData errorMessages (s : St W) :
  exists flow teamData' errorMessages' s',
    try_endpoint fetch endpoint (teamData, errorMessages) s =
      (Ok (flow, (teamData', errorMessages')), s') /\
    fetched s' = fetched s ++ [url endpoint] /\
    (flow = Break -> complete teamData' = true) /\
    (flow = Next -> complete teamData = false -> complete teamData' = false) /\
    (teamData' = teamData \/
     exists data parsedTeam, parseTeam endpoint data = Ok parsedTeam /\
                             teamData' = merge teamData parsedTeam).
Proof.
  rewrite try_endpoint_spec.
  destruct (truthy (delivered _)).
  - destruct (parseTeam endpoint _) as [parsedTeam|e] eqn:Hp.
    + destruct (complete (merge teamData parsedTeam)) eqn:Hc;
        eexists _, _, _, _; (split; [reflexivity|]);
        (split; [reflexivity|]); repeat split; try congruence; eauto.
    + eexists _, _, _, _; (split; [reflexivity|]);
        (split; [reflexivity|]); repeat split; try congruence; eauto.
  - eexists _, _, _, _; (split; [reflexivity|]);
      (split; [reflexivity|]); repeat split; try congruence; eauto.
Qed.

(** The loop from an incomplete state: it never throws, requests a
    prefix of the endpoint URLs in order, and stops short of the end
    only with a complete [teamData]. *)
Lemma loop_spec (eps : list Endpoint) teamData errorMessages (s : St W) :
  complete teamData = false ->
  exists teamData' errorMessages' s' n,
    for_of eps (try_endpoint fetch) (teamData, errorMessages) s =
      (Ok (teamData', errorMessages'), s') /\
    (n <= length eps)%nat /\
    fetched s' = fetched s ++ map url (take n eps) /\
    ((n < length eps)%nat -> complete teamData' = true).
Proof.
  revert teamData errorMessages s.
  induction eps as [|ep eps IH]; intros teamData errorMessages s Hinc.
  - exists teamData, errorMessages, s, 0%nat. simpl.
    rewrite app_nil_r. repeat split; [lia|lia].
  - destruct (try_endpoint_step ep teamData errorMessages s)
      as (flow & td1 & e1 & s1 & Hstep & Hf & Hb & Hn & _).
    rewrite for_of_cons, Hstep.
    destruct flow.
    + destruct (IH td1 e1 s1 (Hn eq_refl Hinc)) as (td2 & e2 & s2 & n & Hl & Hle & Hf2 & Hc).
      exists td2, e2, s2, (S n). rewrite Hl. repeat split.
      * simpl. lia.
      * rewrite Hf2, Hf. simpl. rewrite <- app_assoc. reflexivity.
      * intros Hlt. apply Hc. simpl in Hlt. lia.
    + exists td1, e1, s1, 1%nat. repeat split.
      * simpl. lia.
      * rewrite Hf. destruct eps; reflexivity.
      * intros _. apply Hb. reflexivity.
Qed.

(** Once [teamData] is complete at the end of a list of endpoints, the
    loop over any longer list stops there. *)
Lemma loop_stops (eps more : list Endpoint) teamData errorMessages
    teamData' errorMessages' (s s' : St W) :
  complete teamData = false ->
  for_of eps (try_endpoint fetch) (teamData, errorMessages) s =
    (Ok (teamData', errorMessages'), s') ->
  complete teamData' = true ->
  for_of (eps ++ more) (try_endpoint fetch) (teamData, errorMessages) s =
    (Ok (teamData', errorMessages'), s').
Proof.
  revert teamData errorMessages s.
  induction eps as [|ep eps IH]; intros teamData errorMessages s Hinc Hrun Hc.
  - simpl in Hrun. injection Hrun as -> -> ->. congruence.
  - destruct (try_endpoint_step ep teamData errorMessages s)
      as (flow & td1 & e1 & s1 & Hstep & _ & _ & Hn & _).
    change ((ep :: eps) ++ more) with (ep :: (eps ++ more)).
    rewrite for_of_cons, Hstep.
    rewrite for_of_cons, Hstep in Hrun.
    destruct flow.
    + apply IH; auto.
    + exact Hrun.
Qed.

(** The loop stops at the first complete [teamData]: it requests the
    first [n] endpoints, the loop over these alone ends in the same
    state, [teamData] is incomplete after every shorter prefix, and it is
    complete if endpoints are left over. *)
Lemma loop_first_complete (eps : list Endpoint) teamData errorMessages (s : St W) :
  complete teamData = false ->
  exists teamData' errorMessages' s' n,
    for_of eps (try_endpoint fetch) (teamData, errorMessages) s =
      (Ok (teamData', errorMessages'), s') /\
    (n <= length eps)%nat /\
    for_of (take n eps) (try_endpoint fetch) (teamData, errorMessages) s =
      (Ok (teamData', errorMessages'), s') /\
    fetched s' = fetched s ++ map url (take n eps) /\
    ((n < length eps)%nat -> complete teamData' = true) /\
    (forall m, (m < n)%nat ->
       exists td errs s2,
         for_of (take m eps) (try_endpoint fetch) (teamData, errorMessages) s =
           (Ok (td, errs), s2) /\
         complete td = false).
Proof.
  revert teamData errorMessages s.
  induction eps as [|ep eps IH]; intros teamData errorMessages s Hinc.
  - exists teamData, errorMessages, s, 0%nat. simpl. rewrite app_nil_r.
    repeat split; try lia.
  - destruct (try_endpoint_step ep teamData errorMessages s)
      as (flow & td1 & e1 & s1 & Hstep & Hf & Hb & Hn & _).
    rewrite for_of_cons, Hstep.
    destruct flow.
    + destruct (IH td1 e1 s1 (Hn eq_refl Hinc))
        as (td2 & e2 & s2 & n & Hl & Hle & Hpre & Hf2 & Hc & Hmin).
      exists td2, e2, s2, (S n). rewrite Hl.
      split; [reflexivity|]. split; [simpl; lia|]. split; [|split; [|split]].
      * change (take (S n) (ep :: eps)) with (ep :: take n eps).
        rewrite for_of_cons, Hstep. exact Hpre.
      * rewrite Hf2, Hf. simpl. rewrite <- app_assoc. reflexivity.
      * intros Hlt. apply Hc. simpl in Hlt. lia.
      * intros [|m] Hm.
        -- exists teamData, errorMessages, s. split; [reflexivity|exact Hinc].
        -- destruct (Hmin m) as (td & errs & s3 & Hrun & Htd); [lia|].
           exists td, errs, s3. split; [|exact Htd].
           change (take (S m) (ep :: eps)) with (ep :: take m eps).
           rewrite for_of_cons, Hstep. exact Hrun.
    + exists td1, e1, s1, 1%nat.
      split; [reflexivity|]. split; [simpl; lia|]. split; [|split; [|split]].
      * change (take 1 (ep :: eps)) with (ep :: take 0 eps).
        rewrite for_of_cons, Hstep. reflexivity.
      * rewrite Hf. destruct eps; reflexivity.
      * intros _. apply Hb. reflexivity.
      * intros m Hm. assert (m = 0%nat) as -> by lia.
        exists teamData, errorMessages, s. split; [reflexivity|exact Hinc].
Qed.
End GetTeamLoop.

Section GetTeamClaims.
Import GetTeam.
Context {W : Type}.
Variable fetch : W -> string -> FetchOutcome * W.

(** C1, as amended.  The merge step is last-non-null-writer-wins per
    field: after merging a parsed record, a field reads as the parsed
    value when that value is neither undefined nor null, and as before
    otherwise.  Hence, in every iteration of the endpoint loop, a field
    of [teamData] is never cleared (a value that is neither undefined
    nor null stays so), and it changes only to a parsed value that is
    neither undefined nor null. *)
Theorem C1_merge_last_non_null_wins endpoint teamData errorMessages (s : St W) k :
  (forall parsedTeam,
     field (merge teamData parsedTeam) k =
     if is_nullish (field parsedTeam k) then field teamData k else field parsedTeam k) /\
  exists flow teamData' errorMessages' s',
    try_endpoint fetch endpoint (teamData, errorMessages) s =
      (Ok (flow, (teamData', errorMessages')), s') /\
    (is_nullish (field teamData k) = false -> is_nullish (field teamData' k) = false) /\
    (field teamData' k = field teamData k \/
     exists data parsedTeam,
       parseTeam endpoint data = Ok parsedTeam /\
       is_nullish (field parsedTeam k) = false /\
       field teamData' k = field parsedTeam k).
Proof.
  split; [intros; apply field_merge|].
  destruct (try_endpoint_step fetch endpoint teamData errorMessages s)
    as (flow & td1 & e1 & s1 & Hstep & _ & _ & _ & Hm).
  exists flow, td1, e1, s1. split; [exact Hstep|].
  destruct Hm as [->|(data & parsedTeam & Hp & ->)].
  - split; [auto|left; reflexivity].
  - rewrite field_merge.
    destruct (is_nullish (field parsedTeam k)) eqn:Hn.
    + split; [auto|left; reflexivity].
    + split; [auto|]. right. exists data, parsedTeam. auto.
Qed.

End GetTeamClaims.

(** C1 as stated fails: the Roster API sets [name], and the Club Stats
    API, tried next, replaces it; under the specification's rule the
    first name would have stayed. *)
Lemma C1_later_endpoint_replaces_name :
  GetTeam.field (Samples.team_data_after Samples.world_two_names 1) "name"
    = JStr "Toronto Maple Leafs" /\
  GetTeam.field (Samples.team_data_after Samples.world_two_names 2) "name"
    = JStr "Leafs" /\
  GetTeam.field
    (GetTeam.first_writer_wins
       (Samples.team_data_after Samples.world_two_names 1)
       (Samples.value ∅ (GetTeam.parse_club_stats "TOR" Samples.club_stats_short_name)))
    "name" = JStr "Toronto Maple Leafs".
Proof. repeat split; vm_compute; reflexivity. Qed.

(** C2 as stated fails for an execution of get-team: the roster alone
    completes [teamData] and the loop requests nothing else, but the
    handler then requests the club statistics, whose URL is that of the
    second endpoint in the list. *)
Lemma C2_club_stats_requested_after_completeness :
  GetTeam.complete (Samples.team_data_after Samples.world_roster_complete 1) = true /\
  Samples.trace (GetTeam.resolve Samples.world_roster_complete (GetTeam.endpoints "TOR")
                                 (start tt))
    = [Samples.roster_url] /\
  Samples.trace (GetTeam.get_team Samples.world_roster_complete Samples.no_literal "TOR"
                                  (start tt))
    = [Samples.roster_url; Samples.club_stats_url] /\
  GetTeam.url <$> GetTeam.endpoints "TOR" !! 1%nat = Some Samples.club_stats_url.
Proof. repeat split; vm_compute; reflexivity. Qed.

(** ** get-team: the parsers *)

Lemma bind_Ok {A B} (m : Res A) (f : A -> Res B) (b : B) :
  (m ≫= f) = Ok b -> exists a, m = Ok a /\ f a = Ok b.
Proof. destruct m as [a|e]; simpl; [eauto|discriminate]. Qed.

(** Takes one step through a parser run [H : ... = Ok r]. *)
Ltac parser_step H :=
  match type of H with
  | (_ ≫= _) = Ok _ =>
      let a := fresh "a" in
      let Ha := fresh "Ha" in
      apply bind_Ok in H; destruct H as (a & Ha & H)
  | (if ?b then _ else _) = Ok _ => destruct b eqn:?
  | (let '(_, _) := ?p in _) = Ok _ => destruct p
  | mret _ = Ok _ => injection H as <-
  | Ok _ = Ok _ => injection H as <-
  end.

Section ParserFacts.
Import GetTeam.
Variable teamCode : string.

Lemma parse_roster_abbrev data r :
  parse_roster teamCode data = Ok r -> keeps_team_code teamCode r.
Proof.
  unfold parse_roster. intros H. repeat parser_step H. right. reflexivity.
Qed.

Lemma parse_club_stats_abbrev data r :
  parse_club_stats teamCode data = Ok r -> keeps_team_code teamCode r.
Proof.
  unfold parse_club_stats. intros H.
  do 5 parser_step H. parser_step H. right. reflexivity.
Qed.

Lemma parse_team_info_abbrev data r :
  parse_team_info teamCode data = Ok r -> keeps_team_code teamCode r.
Proof.
  unfold parse_team_info. intros H.
  do 2 parser_step H. parser_step H.
  - parser_step H. left. reflexivity.
  - repeat parser_step H. right. reflexivity.
Qed.

Lemma parse_standings_abbrev data r :
  parse_standings teamCode data = Ok r -> keeps_team_code teamCode r.
Proof.
  unfold parse_standings. intros H.
  do 4 parser_step H. parser_step H.
  - parser_step H. left. reflexivity.
  - repeat parser_step H. right. reflexivity.
Qed.

Lemma endpoints_keep_team_code endpoint data r :
  endpoint ∈ endpoints teamCode ->
  parseTeam endpoint data = Ok r -> keeps_team_code teamCode r.
Proof.
  unfold endpoints. rewrite !elem_of_cons, elem_of_nil.
  intros [->|[->|[->|[->|[]]]]]; simpl;
    eauto using parse_roster_abbrev, parse_club_stats_abbrev,
                parse_team_info_abbrev, parse_standings_abbrev.
Qed.
End ParserFacts.

Section RecordFacts.
Import GetTeam.
Variable teamCode : string.

Lemma truthy_not_nullish v : truthy v = true -> is_nullish v = false.
Proof. destruct v; simpl; congruence. Qed.

Lemma get_truthy v k : truthy v = true -> get v k = Ok (prop v k).
Proof. intros H. unfold get. rewrite (truthy_not_nullish v H). reflexivity. Qed.

Lemma or_zero_truthy row k :
  truthy row = true -> or_zero row k = Ok (js_or (prop row k) (JNum 0)).
Proof. intros H. unfold or_zero. rewrite (get_truthy row k H). reflexivity. Qed.

(** A field that is absent, null, zero or otherwise falsy upstream reads
    as 0 in the record. *)
Lemma zero_filled_absent row k :
  k ∈ ["wins"; "losses"; "otLosses"; "points"] ->
  truthy (prop row k) = false ->
  prop (zero_filled row) k = JNum 0.
Proof.
  rewrite !elem_of_cons, elem_of_nil.
  intros [->|[->|[->|[->|[]]]]] H; simpl; unfold js_or; rewrite H; reflexivity.
Qed.

Lemma parse_club_stats_record data r :
  parse_club_stats teamCode data = Ok r ->
  field r "record" = JUndef \/
  exists row, truthy row = true /\ field r "record" = zero_filled row.
Proof.
  unfold parse_club_stats. intros H.
  do 4 parser_step H. parser_step H. parser_step H.
  assert (Hrec : a3 = JUndef \/ exists row, truthy row = true /\ a3 = zero_filled row).
  { clear -Ha3. do 2 parser_step Ha3. parser_step Ha3.
    - rewrite !(or_zero_truthy a0) in Ha3 by assumption. simpl in Ha3.
      injection Ha3 as <-. right. exists a0. split; [assumption|reflexivity].
    - parser_step Ha3. left. reflexivity. }
  destruct Hrec as [->|(row & Hrow & ->)]; [left|right; exists row; split; auto];
    reflexivity.
Qed.

Lemma parse_standings_record data r :
  parse_standings teamCode data = Ok r ->
  r = ∅ \/ exists row, truthy row = true /\ field r "record" = zero_filled row.
Proof.
  unfold parse_standings. intros H.
  do 4 parser_step H. parser_step H.
  - parser_step H. left. reflexivity.
  - apply negb_false_iff in Heqb.
    do 6 parser_step H.
    rewrite !(or_zero_truthy j0) in H by assumption. simpl in H.
    injection H as <-. right. exists j0. split; [assumption|reflexivity].
Qed.
End RecordFacts.

(** ** get-team: the answer *)

Section AnswerFacts.
Import GetTeam.
Context {W : Type}.
Variable fetch : W -> string -> FetchOutcome * W.
Variable positive_literal : string -> bool.

Lemma answer_spec teamCode teamData errorMessages (s : St W) :
  answer fetch positive_literal teamCode (teamData, errorMessages) s =
  if truthy (field teamData "name") then
    let out := (fetch (world s) (stats_url teamCode)).1 in
    let s1 := requested s (stats_url teamCode) out (fetch (world s) (stats_url teamCode)).2 in
    match team_info positive_literal teamCode teamData (delivered out) with
    | Ok teamInfo => (Ok (join "\n" teamInfo), s1)
    | Throw e => (Throw e, s1)
    end
  else (Ok (failure_text teamCode), gave_up s errorMessages).
Proof.
  unfold answer. destruct (truthy (field teamData "name")); simpl; [|reflexivity].
  unfold mbind, M_bind. rewrite makeNHLRequest_spec. unfold lift.
  destruct (team_info _ _ _ _); reflexivity.
Qed.

Lemma handler_spec eps teamAbbrev (s : St W) :
  handler fetch positive_literal eps teamAbbrev s =
  match resolve fetch (eps (Str.trim (Str.toUpperCase teamAbbrev))) s with
  | (Ok st, s1) => answer fetch positive_literal (Str.trim (Str.toUpperCase teamAbbrev)) st s1
  | (Throw e, s1) => (Throw e, s1)
  end.
Proof. reflexivity. Qed.

(** Whatever statistics are appended, the answer starts with the four
    header lines. *)
Lemma team_info_header teamCode teamData statsData teamInfo :
  team_info positive_literal teamCode teamData statsData = Ok teamInfo ->
  exists more, teamInfo = header_lines teamCode teamData ++ more.
Proof.
  unfold team_info. intros H.
  destruct (has_stats positive_literal statsData).
  - do 2 parser_step H. eauto.
  - destruct (truthy (field teamData "record")).
    + do 2 parser_step H. eauto.
    + parser_step H. exists []. rewrite app_nil_r. reflexivity.
Qed.

Lemma header_abbreviation teamCode teamData more :
  (header_lines teamCode teamData ++ more) !! 1%nat = Some ("Abbreviation: " +:+ teamCode).
Proof. reflexivity. Qed.

(** An answer built from header lines never reads as the failure text. *)
Lemma found_text_differs teamCode teamData more :
  join "\n" (header_lines teamCode teamData ++ more) <> failure_text teamCode.
Proof.
  unfold header_lines, failure_text, join. simpl. discriminate.
Qed.
End AnswerFacts.

Section GetTeamHandlerClaims.
Import GetTeam.
Context {W : Type}.
Variable fetch : W -> string -> FetchOutcome * W.
Variable positive_literal : string -> bool.

(** A property of [teamData] that every merge of a parsed record
    preserves holds at the end of the loop. *)
Lemma loop_invariant (P : gmap string JsVal -> Prop) (eps : list Endpoint)
    teamData errorMessages teamData' errorMessages' (s s' : St W) :
  (forall endpoint data parsedTeam td,
     endpoint ∈ eps -> parseTeam endpoint data = Ok parsedTeam ->
     P td -> P (merge td parsedTeam)) ->
  P teamData ->
  for_of eps (try_endpoint fetch) (teamData, errorMessages) s =
    (Ok (teamData', errorMessages'), s') ->
  P teamData'.
Proof.
  revert teamData errorMessages s.
  induction eps as [|ep eps IH]; intros teamData errorMessages s Hm HP Hrun.
  - simpl in Hrun. injection Hrun as <- _ _. exact HP.
  - destruct (try_endpoint_step fetch ep teamData errorMessages s)
      as (flow & td1 & e1 & s1 & Hstep & _ & _ & _ & Hcase).
    rewrite for_of_cons, Hstep in Hrun.
    assert (HP1 : P td1).
    { destruct Hcase as [->|(data & parsedTeam & Hp & ->)]; [exact HP|].
      eapply Hm; eauto. apply elem_of_cons. left. reflexivity. }
    destruct flow.
    + eapply IH; eauto. intros endpoint data parsedTeam td Hin. apply Hm.
      apply elem_of_cons. right. exact Hin.
    + injection Hrun as <- _ _. exact HP1.
Qed.

Lemma complete_has_name teamData :
  complete teamData = true -> truthy (field teamData "name") = true.
Proof.
  unfold complete, js_and.
  destruct (truthy (field teamData "name")) eqn:Hn; [reflexivity|].
  rewrite Hn. rewrite Hn. congruence.
Qed.

(** The handler returns the failure text exactly when the loop ends
    without a name, and then it has requested every endpoint and nothing
    else. *)
Lemma handler_not_found eps teamAbbrev (s : St W) :
  let teamCode := Str.trim (Str.toUpperCase teamAbbrev) in
  exists teamData errorMessages s1,
    resolve fetch (eps teamCode) s = (Ok (teamData, errorMessages), s1) /\
    (truthy (field teamData "name") = false ->
     handler fetch positive_literal eps teamAbbrev s =
       (Ok (failure_text teamCode), gave_up s1 errorMessages) /\
     fetched s1 = fetched s ++ map url (eps teamCode)) /\
    (truthy (field teamData "name") = true ->
     forall text s', handler fetch positive_literal eps teamAbbrev s = (Ok text, s') ->
       text <> failure_text teamCode /\
       exists more, text = join "\n" (header_lines teamCode teamData ++ more)).
Proof.
  intros teamCode. unfold resolve.
  destruct (loop_spec fetch (eps teamCode) ∅ [] s complete_empty)
    as (td & e & s1 & n & Hl & Hle & Hf & Hc).
  exists td, e, s1. split; [exact Hl|]. split.
  - intros Hname. split.
    + rewrite handler_spec. unfold resolve. fold teamCode. rewrite Hl.
      rewrite answer_spec, Hname. reflexivity.
    + destruct (decide (n < length (eps teamCode))%nat) as [Hlt|Hge].
      * apply Hc, complete_has_name in Hlt. congruence.
      * rewrite Hf, take_ge by lia. reflexivity.
  - intros Hname text s'. rewrite handler_spec. unfold resolve. fold teamCode.
    rewrite Hl, answer_spec, Hname. simpl.
    destruct (team_info _ _ _ _) as [teamInfo|err] eqn:Hinfo; [|discriminate].
    intros Heq. injection Heq as <- _.
    destruct (team_info_header _ _ _ _ _ Hinfo) as (more & ->).
    split; [apply found_text_differs|eauto].
Qed.

(** C2, as amended.  In the endpoint loop the completeness predicate is
    evaluated after each merge step and decides the flow: an iteration
    that starts incomplete breaks exactly when [teamData] is complete
    after it.  So the loop requests the first [n] endpoints, in order,
    where [teamData] is incomplete after every shorter prefix and is
    complete if endpoints are left over, and the endpoints after the
    [n]-th have no effect.  The handler then goes on: whenever a name was
    resolved, and so whenever [teamData] is complete, it requests the
    club statistics once more, and their URL is the URL of the second
    endpoint. *)
Theorem C2_short_circuit_in_the_loop eps teamAbbrev (s : St W) :
  let teamCode := Str.trim (Str.toUpperCase teamAbbrev) in
  (exists teamData errorMessages s1 n,
     resolve fetch (eps teamCode) s = (Ok (teamData, errorMessages), s1) /\
     (n <= length (eps teamCode))%nat /\
     resolve fetch (take n (eps teamCode)) s = (Ok (teamData, errorMessages), s1) /\
     fetched s1 = fetched s ++ map url (take n (eps teamCode)) /\
     ((n < length (eps teamCode))%nat -> complete teamData = true) /\
     (forall m, (m < n)%nat ->
        exists td errs s2,
          resolve fetch (take m (eps teamCode)) s = (Ok (td, errs), s2) /\
          complete td = false) /\
     fetched (handler fetch positive_literal eps teamAbbrev s).2 =
       fetched s ++ map url (take n (eps teamCode)) ++
       (if truthy (field teamData "name") then [stats_url teamCode] else []) /\
     (complete teamData = true ->
      fetched (handler fetch positive_literal eps teamAbbrev s).2 =
        fetched s ++ map url (take n (eps teamCode)) ++ [stats_url teamCode])) /\
  (forall endpoint td errs (s0 : St W),
     complete td = false ->
     exists flow td' errs' s1,
       try_endpoint fetch endpoint (td, errs) s0 = (Ok (flow, (td', errs')), s1) /\
       (flow = Break <-> complete td' = true)) /\
  url <$> endpoints teamCode !! 1%nat = Some (stats_url teamCode).
Proof.
  intros teamCode. split; [|split].
  - unfold resolve.
    destruct (loop_first_complete fetch (eps teamCode) ∅ [] s complete_empty)
      as (td & e & s1 & n & Hl & Hle & Hpre & Hf & Hc & Hmin).
    exists td, e, s1, n.
    assert (Htrace : fetched (handler fetch positive_literal eps teamAbbrev s).2 =
                     fetched s ++ map url (take n (eps teamCode)) ++
                     (if truthy (field td "name") then [stats_url teamCode] else [])).
    { rewrite handler_spec. unfold resolve. fold teamCode. rewrite Hl, answer_spec.
      rewrite app_assoc, <- Hf.
      destruct (truthy (field td "name")).
      - simpl. destruct (team_info _ _ _ _); reflexivity.
      - simpl. rewrite app_nil_r. reflexivity. }
    split; [exact Hl|]. split; [exact Hle|]. split; [exact Hpre|].
    split; [exact Hf|]. split; [exact Hc|]. split; [exact Hmin|].
    split; [exact Htrace|].
    intros Hcomplete. rewrite Htrace, (complete_has_name td Hcomplete). reflexivity.
  - intros endpoint td errs s0 Hinc.
    destruct (try_endpoint_step fetch endpoint td errs s0)
      as (flow & td1 & e1 & s1 & Hstep & _ & Hb & Hn & _).
    exists flow, td1, e1, s1. split; [exact Hstep|].
    split; [exact Hb|]. intros Hc1. destruct flow; [|reflexivity].
    rewrite (Hn eq_refl Hinc) in Hc1. discriminate.
  - reflexivity.
Qed.

(** C4.  When the fetch for a source fails (network error, status outside
    200-299, or a body that is not JSON), makeNHLRequest returns [null]
    without throwing and logs the error; the loop iteration leaves
    [teamData] and [errorMessages] as they were and the loop goes on
    with the next source.  The handler answers with the failure text
    only after it has requested every endpoint. *)
Theorem C4_fetch_failure_is_not_fatal endpoint (eps : list Endpoint)
    teamData errorMessages (s : St W) e :
  failure (fetch (world s) (url endpoint)).1 = Some e ->
  let s1 := requested s (url endpoint) (fetch (world s) (url endpoint)).1
                      (fetch (world s) (url endpoint)).2 in
  makeNHLRequest fetch (url endpoint) s = (Ok JNull, s1) /\
  console s1 = console s ++ [RequestError e] /\
  for_of (endpoint :: eps) (try_endpoint fetch) (teamData, errorMessages) s =
    for_of eps (try_endpoint fetch) (teamData, errorMessages) s1 /\
  (forall all teamAbbrev (s0 s' : St W),
     handler fetch positive_literal all teamAbbrev s0 =
       (Ok (failure_text (Str.trim (Str.toUpperCase teamAbbrev))), s') ->
     fetched s' = fetched s0 ++ map url (all (Str.trim (Str.toUpperCase teamAbbrev)))).
Proof.
  intros Hfail s1.
  assert (Hnull : delivered (fetch (world s) (url endpoint)).1 = JNull)
    by (apply failure_delivers_null; rewrite Hfail; eauto).
  split; [|split; [|split]].
  - rewrite makeNHLRequest_spec, Hnull. reflexivity.
  - unfold s1, requested. simpl. rewrite Hfail. reflexivity.
  - rewrite for_of_cons, try_endpoint_spec, Hnull. reflexivity.
  - intros all teamAbbrev s0 s' Hrun.
    destruct (handler_not_found all teamAbbrev s0)
      as (td & errs & s2 & Hres & Hnone & Hsome).
    destruct (truthy (field td "name")) eqn:Hname.
    + destruct (Hsome eq_refl _ _ Hrun) as [Hne _]. congruence.
    + destruct (Hnone eq_refl) as [Hh Hf]. rewrite Hh in Hrun.
      injection Hrun as <-. exact Hf.
Qed.

(** C8.  Every partial record an endpoint parser returns is empty or has
    the caller's team code, uppercased and trimmed, as its [abbrev];
    merging it leaves the accumulated [abbrev] unset or equal to that
    code, at every point of the loop; and the second line of every answer
    that is not the failure text is "Abbreviation: " followed by that
    code. *)
Theorem C8_team_code_is_canonical teamAbbrev endpoint data parsedTeam :
  endpoint ∈ endpoints (Str.trim (Str.toUpperCase teamAbbrev)) ->
  parseTeam endpoint data = Ok parsedTeam ->
  let teamCode := Str.trim (Str.toUpperCase teamAbbrev) in
  (parsedTeam = ∅ \/ parsedTeam !! "abbrev" = Some (JStr teamCode)) /\
  (forall teamData errorMessages (s s' : St W),
     resolve fetch (endpoints teamCode) s = (Ok (teamData, errorMessages), s') ->
     field teamData "abbrev" = JUndef \/ field teamData "abbrev" = JStr teamCode) /\
  (forall text (s s' : St W),
     get_team fetch positive_literal teamAbbrev s = (Ok text, s') ->
     text = failure_text teamCode \/
     exists teamInfo, text = join "\n" teamInfo /\
                      teamInfo !! 1%nat = Some ("Abbreviation: " +:+ teamCode)).
Proof.
  intros Hin Hparse teamCode. split; [|split].
  - exact (endpoints_keep_team_code teamCode endpoint data parsedTeam Hin Hparse).
  - intros teamData errorMessages s s' Hrun. unfold resolve in Hrun.
    refine (loop_invariant
              (fun td => field td "abbrev" = JUndef \/ field td "abbrev" = JStr teamCode)
              _ _ _ _ _ _ _ _ _ Hrun).
    + intros ep d p td Hep Hp Htd.
      destruct (endpoints_keep_team_code teamCode ep d p Hep Hp) as [->|Hab].
      * rewrite merge_empty_r. exact Htd.
      * right. rewrite field_merge. unfold field. rewrite Hab. reflexivity.
    + left. reflexivity.
  - intros text s s' Hrun. unfold get_team in Hrun.
    destruct (handler_not_found endpoints teamAbbrev s)
      as (td & errs & s1 & Hres & Hnone & Hsome).
    fold teamCode in Hnone, Hsome.
    destruct (truthy (field td "name")) eqn:Hname.
    + right. destruct (Hsome eq_refl _ _ Hrun) as [_ (more & ->)].
      eexists. split; [reflexivity|]. apply header_abbreviation.
    + left. destruct (Hnone eq_refl) as [Hh _]. rewrite Hh in Hrun.
      injection Hrun as <-. reflexivity.
Qed.
End GetTeamHandlerClaims.

Lemma C4_fetch_failure_is_not_fatal_witness :
  let endpoint := GetTeam.mkEndpoint "Roster API" Samples.roster_url (GetTeam.parse_roster "TOR") in
  failure (Samples.world_down tt (GetTeam.url endpoint)).1 = Some NetworkError /\
  makeNHLRequest Samples.world_down (GetTeam.url endpoint) (start tt) =
    (Ok JNull, mkSt tt [Samples.roster_url] [RequestError NetworkError]) /\
  GetTeam.resolve Samples.world_down (endpoint :: drop 1 (GetTeam.endpoints "TOR")) (start tt) =
    for_of (drop 1 (GetTeam.endpoints "TOR")) (GetTeam.try_endpoint Samples.world_down)
           (∅, []) (mkSt tt [Samples.roster_url] [RequestError NetworkError]).
Proof.
  intros endpoint.
  pose proof (C4_fetch_failure_is_not_fatal Samples.world_down Samples.no_literal endpoint
                (drop 1 (GetTeam.endpoints "TOR")) ∅ [] (start tt) NetworkError eq_refl)
    as (H1 & _ & H3 & _).
  split; [reflexivity|]. split; [exact H1|exact H3].
Defined.

Lemma C8_team_code_is_canonical_witness :
  let endpoint := GetTeam.mkEndpoint "Standings API" Samples.standings_url
                    (GetTeam.parse_standings "TOR") in
  let parsedTeam := Samples.value ∅ (GetTeam.parse_standings "TOR" Samples.standings_doc) in
  Str.trim (Str.toUpperCase " tor") = "TOR" /\
  endpoint ∈ GetTeam.endpoints (Str.trim (Str.toUpperCase " tor")) /\
  GetTeam.parseTeam endpoint Samples.standings_doc = Ok parsedTeam /\
  parsedTeam !! "abbrev" = Some (JStr "TOR").
Proof.
  intros endpoint parsedTeam.
  assert (Hin : endpoint ∈ GetTeam.endpoints (Str.trim (Str.toUpperCase " tor")))
    by (apply list_elem_of_lookup; exists 3%nat; reflexivity).
  assert (Hp : GetTeam.parseTeam endpoint Samples.standings_doc = Ok parsedTeam)
    by (vm_compute; reflexivity).
  pose proof (C8_team_code_is_canonical Samples.world_down Samples.no_literal
                " tor" endpoint Samples.standings_doc parsedTeam Hin Hp) as (H1 & _).
  split; [reflexivity|]. split; [exact Hin|]. split; [exact Hp|].
  destruct H1 as [He|H1]; [|exact H1].
  exfalso. apply (f_equal (fun m => m !! "abbrev")) in He.
  vm_compute in He. discriminate.
Defined.

Section RecordSources.
Import GetTeam.
Variable teamCode : string.

Lemma find_first_found pred l x :
  find_first pred l = Ok x -> truthy x = true -> x ∈ l /\ pred x = Ok true.
Proof.
  induction l as [|y l IH]; simpl; intros H Hx.
  - injection H as <-. discriminate.
  - destruct (pred y) as [[|]|e] eqn:Hy; [| |discriminate].
    + injection H as <-. split; [apply elem_of_cons; left; reflexivity|exact Hy].
    + destruct (IH H Hx) as [Hin Hp]. split; [apply elem_of_cons; right; exact Hin|exact Hp].
Qed.

Lemma find_first_none pred l x :
  (forall t, pred t = Ok true -> truthy t = true) ->
  find_first pred l = Ok x -> truthy x = false ->
  forall t, t ∈ l -> pred t = Ok false.
Proof.
  intros Hpred. induction l as [|y l IH]; simpl; intros H Hx t Hin.
  - apply elem_of_nil in Hin. contradiction.
  - destruct (pred y) as [[|]|e] eqn:Hy; [| |discriminate].
    + injection H as <-. apply Hpred in Hy. congruence.
    + apply elem_of_cons in Hin as [->|Hin]; [exact Hy|exact (IH H Hx t Hin)].
Qed.

Lemma matches_standings_truthy t :
  matches_standings teamCode t = Ok true -> truthy t = true.
Proof.
  destruct t as [| |[|]|n|str|l|o]; try discriminate; reflexivity.
Qed.

(** [div.teamRecords || div.teams || []] *)
Lemma division_rows div teams :
  (r ← get div "teamRecords";
   or_else r (t ← get div "teams"; or_else t (Ok (JArr [])))) = Ok teams ->
  teams = js_or (prop div "teamRecords") (js_or (prop div "teams") (JArr [])).
Proof.
  unfold get, or_else, js_or. destruct (is_nullish div); [discriminate|].
  cbn [mbind Res_bind].
  destruct (truthy (prop div "teamRecords")); [congruence|].
  cbn [mbind Res_bind]. destruct (truthy (prop div "teams")); congruence.
Qed.

(** The search of the Standings parser ends with a row of one of the
    divisions that matches the team code, or, when it ends without a
    row, no row of any division matches. *)
Lemma search_divisions_spec divs division foundTeam :
  search_divisions teamCode divs = Ok (division, foundTeam) ->
  if truthy foundTeam then
    division ∈ divs /\
    exists rows,
      js_or (prop division "teamRecords") (js_or (prop division "teams") (JArr []))
        = JArr rows /\
      foundTeam ∈ rows /\
      matches_standings teamCode foundTeam = Ok true
  else
    forall div, div ∈ divs ->
      exists rows,
        js_or (prop div "teamRecords") (js_or (prop div "teams") (JArr [])) = JArr rows /\
        forall t, t ∈ rows -> matches_standings teamCode t = Ok false.
Proof.
  induction divs as [|div divs IH]; cbn [search_divisions]; intros H.
  - injection H as <- <-. simpl. intros div Hin. apply elem_of_nil in Hin. contradiction.
  - destruct (_ ≫= _) as [team|e] eqn:Hfind in H; [|discriminate].
    apply bind_Ok in Hfind as (teams & Hteams & Hfind).
    apply division_rows in Hteams.
    destruct teams as [| | | | |rows|]; try discriminate. simpl in Hfind.
    destruct (truthy team) eqn:Hteam.
    + injection H as <- <-. rewrite Hteam.
      destruct (find_first_found _ _ _ Hfind Hteam) as [Hin Hm].
      split; [apply elem_of_cons; left; reflexivity|]. eauto.
    + specialize (IH H). destruct (truthy foundTeam).
      * destruct IH as [Hin Hrows]. split; [apply elem_of_cons; right; exact Hin|exact Hrows].
      * intros d Hd. apply elem_of_cons in Hd as [->|Hd]; [|exact (IH d Hd)].
        exists rows. split; [symmetry; exact Hteams|].
        exact (find_first_none _ _ _ matches_standings_truthy Hfind Hteam).
Qed.

(** The Club Stats parser returns on every truthy document, and its
    [record] is decided by the first row of [teamStats]. *)
Lemma parse_club_stats_total data :
  truthy data = true ->
  exists parsedTeam,
    parse_club_stats teamCode data = Ok parsedTeam /\
    field parsedTeam "record" =
      (if truthy (js_and (prop data "teamStats") (first (prop data "teamStats")))
       then zero_filled (js_and (prop data "teamStats") (first (prop data "teamStats")))
       else JUndef).
Proof.
  intros Hd. unfold parse_club_stats, or_else, and_then, js_and, get_first.
  rewrite !(get_truthy data _ Hd). cbn [mbind Res_bind].
  destruct (truthy (prop data "teamId")); destruct (truthy (prop data "teamName"));
    cbn [mbind Res_bind];
    (destruct (truthy (prop data "teamStats")) eqn:Hts;
      [rewrite (truthy_not_nullish _ Hts); cbn [mbind Res_bind];
       destruct (truthy (first (prop data "teamStats"))) eqn:Hrow;
         [rewrite !(or_zero_truthy _ _ Hrow)|]
      |cbn [mbind Res_bind]; rewrite Hts]);
    cbn [mbind Res_bind mret Res_ret]; eexists; (split; [reflexivity|reflexivity]).
Qed.

(** The divisions the Standings parser searches. *)
Lemma standings_divisions data divisions :
  truthy data = true ->
  (s ← get data "standings";
   or_else (opt_get s "divisionStandings")
     (d ← get data "divisionStandings";
      or_else d (r ← get data "records"; or_else r (Ok (JArr []))))) = Ok divisions ->
  divisions =
    js_or (opt_get (prop data "standings") "divisionStandings")
          (js_or (prop data "divisionStandings") (js_or (prop data "records") (JArr []))).
Proof.
  intros Hd. rewrite !(get_truthy data _ Hd). unfold or_else, js_or.
  cbn [mbind Res_bind].
  destruct (truthy (opt_get (prop data "standings") "divisionStandings")); [congruence|].
  destruct (truthy (prop data "divisionStandings")); [congruence|].
  destruct (truthy (prop data "records")); congruence.
Qed.

Lemma parse_standings_source data parsedTeam :
  truthy data = true ->
  parse_standings teamCode data = Ok parsedTeam ->
  exists divs division foundTeam,
    iterate (js_or (opt_get (prop data "standings") "divisionStandings")
                   (js_or (prop data "divisionStandings")
                          (js_or (prop data "records") (JArr [])))) = Ok divs /\
    search_divisions teamCode divs = Ok (division, foundTeam) /\
    if truthy foundTeam then field parsedTeam "record" = zero_filled foundTeam
    else parsedTeam = ∅.
Proof.
  intros Hd H. unfold parse_standings in H.
  apply bind_Ok in H as (divisions & Hdivs & H).
  apply (standings_divisions data divisions Hd) in Hdivs. subst divisions.
  apply bind_Ok in H as (divs & Hiter & H).
  apply bind_Ok in H as ([division foundTeam] & Hsearch & H).
  exists divs, division, foundTeam. split; [exact Hiter|]. split; [exact Hsearch|].
  destruct (truthy foundTeam) eqn:Hft; cbn [negb] in H.
  - do 6 parser_step H.
    rewrite !(or_zero_truthy foundTeam) in H by assumption. simpl in H.
    injection H as <-. reflexivity.
  - injection H as <-. reflexivity.
Qed.
End RecordSources.

(** C5, as amended.  The Club Stats and Standings parsers substitute 0 at
    parse time.  On every truthy document the Club Stats parser returns,
    and the row it reads is the first element of [teamStats]; the
    Standings parser, when it returns, reads the first row of a division
    that matches the team code.  When such a row is found and is truthy,
    the [record] of the partial record holds, for each of wins, losses,
    otLosses and points, the value of that row, or 0 when that value is
    absent (or otherwise falsy), and the merge step stores this record in
    [teamData].  [record] is left absent only when no row is found: then
    the Club Stats parser returns no [record] and the Standings parser
    the empty record, no row of any division matching, and the merge
    leaves the [record] of [teamData] as it was.  The completeness check
    does not read [record]. *)
Theorem C5_zero_is_stored_at_parse_time teamCode data :
  truthy data = true ->
  (let row := js_and (prop data "teamStats") (first (prop data "teamStats")) in
   exists parsedTeam,
     GetTeam.parse_club_stats teamCode data = Ok parsedTeam /\
     GetTeam.field parsedTeam "record" =
       (if truthy row then GetTeam.zero_filled row else JUndef) /\
     forall teamData,
       GetTeam.field (GetTeam.merge teamData parsedTeam) "record" =
       (if truthy row then GetTeam.zero_filled row
        else GetTeam.field teamData "record")) /\
  (forall parsedTeam,
     GetTeam.parse_standings teamCode data = Ok parsedTeam ->
     exists divs,
       iterate (js_or (opt_get (prop data "standings") "divisionStandings")
                      (js_or (prop data "divisionStandings")
                             (js_or (prop data "records") (JArr [])))) = Ok divs /\
       ((exists division rows foundTeam,
           division ∈ divs /\
           js_or (prop division "teamRecords") (js_or (prop division "teams") (JArr []))
             = JArr rows /\
           foundTeam ∈ rows /\
           GetTeam.matches_standings teamCode foundTeam = Ok true /\
           GetTeam.field parsedTeam "record" = GetTeam.zero_filled foundTeam /\
           forall teamData,
             GetTeam.field (GetTeam.merge teamData parsedTeam) "record" =
             GetTeam.zero_filled foundTeam) \/
        (parsedTeam = ∅ /\
         (forall teamData, GetTeam.merge teamData parsedTeam = teamData) /\
         forall division, division ∈ divs ->
           exists rows,
             js_or (prop division "teamRecords") (js_or (prop division "teams") (JArr []))
               = JArr rows /\
             forall t, t ∈ rows -> GetTeam.matches_standings teamCode t = Ok false))) /\
  (forall row k,
     k ∈ ["wins"; "losses"; "otLosses"; "points"] ->
     prop (GetTeam.zero_filled row) k =
       (if truthy (prop row k) then prop row k else JNum 0)) /\
  (forall teamData v,
     GetTeam.complete (<["record" := v]> teamData) = GetTeam.complete teamData).
Proof.
  intros Hd. split; [|split; [|split]].
  - cbv zeta. destruct (parse_club_stats_total teamCode data Hd) as (parsedTeam & Hp & Hrec).
    exists parsedTeam. split; [exact Hp|]. split; [exact Hrec|].
    intros teamData. rewrite field_merge, Hrec.
    destruct (truthy (js_and _ _)); reflexivity.
  - intros parsedTeam Hp.
    destruct (parse_standings_source teamCode data parsedTeam Hd Hp)
      as (divs & division & foundTeam & Hiter & Hsearch & Hrec).
    exists divs. split; [exact Hiter|].
    pose proof (search_divisions_spec teamCode divs division foundTeam Hsearch) as Hfound.
    destruct (truthy foundTeam).
    + left. destruct Hfound as (Hin & rows & Hrows & Hrow & Hm).
      exists division, rows, foundTeam.
      split; [exact Hin|]. split; [exact Hrows|]. split; [exact Hrow|].
      split; [exact Hm|]. split; [exact Hrec|].
      intros teamData. rewrite field_merge, Hrec. reflexivity.
    + right. split; [exact Hrec|]. split; [|exact Hfound].
      intros teamData. rewrite Hrec. apply merge_empty_r.
  - intros row k. rewrite !elem_of_cons, elem_of_nil.
    intros [->|[->|[->|[->|[]]]]]; reflexivity.
  - intros teamData v. apply complete_insert_other; discriminate.
Qed.

(** C5 as stated fails: the standings row for TOR carries no [wins], and
    the parsed record, and [teamData] after the merge, hold 0 for it. *)
Lemma C5_absent_wins_is_stored_as_zero :
  prop Samples.standings_row "wins" = JUndef /\
  prop (GetTeam.field (Samples.value ∅ (GetTeam.parse_standings "TOR" Samples.standings_doc))
                      "record") "wins" = JNum 0 /\
  prop (GetTeam.field (Samples.team_data_after Samples.world_standings_only 4) "record")
       "wins" = JNum 0.
Proof. repeat split; vm_compute; reflexivity. Qed.

(** Club statistics whose first row carries [losses] only: the parser
    returns, and the record holds 0 for the three values the row lacks. *)
Lemma C5_zero_is_stored_at_parse_time_witness :
  let parsedTeam :=
    Samples.value ∅ (GetTeam.parse_club_stats "TOR" Cases.club_stats_no_wins) in
  truthy Cases.club_stats_no_wins = true /\
  GetTeam.parse_club_stats "TOR" Cases.club_stats_no_wins = Ok parsedTeam /\
  GetTeam.field parsedTeam "record" =
    JObj [("wins", JNum 0); ("losses", JNum 20); ("otLosses", JNum 0); ("points", JNum 0)] /\
  GetTeam.field (GetTeam.merge ∅ parsedTeam) "record" =
    JObj [("wins", JNum 0); ("losses", JNum 20); ("otLosses", JNum 0); ("points", JNum 0)].
Proof.
  intros parsedTeam.
  assert (Hd : truthy Cases.club_stats_no_wins = true) by reflexivity.
  destruct (C5_zero_is_stored_at_parse_time "TOR" Cases.club_stats_no_wins Hd)
    as ((p & Hp & Hrec & Hmerge) & _).
  assert (Heq : parsedTeam = p) by (unfold parsedTeam; rewrite Hp; reflexivity).
  rewrite Heq. split; [exact Hd|]. split; [exact Hp|].
  split; [rewrite Hrec|rewrite (Hmerge ∅)]; reflexivity.
Defined.

(** At the failing input of C3 the handler throws: the roster resolves a
    name, the club statistics deliver [{"teamStats": [null]}], and
    reading [wins] of the first row raises a [TypeError] outside any
    [try]. *)
Lemma C3_null_stats_row_throws :
  GetTeam.field (Samples.team_data_after Samples.world_null_row 4) "name"
    = JStr "Toronto Maple Leafs" /\
  (GetTeam.get_team Samples.world_null_row Samples.no_literal "TOR" (start tt)).1
    = Throw (TypeError "wins").
Proof. split; vm_compute; reflexivity. Qed.

(** ** get-player: resolution and team lookup *)

Section GetPlayerFacts.
Import GetPlayer.
Context {W : Type}.
Variable fetch : W -> string -> FetchOutcome * W.

Lemma player_endpoint_spec endpoint playerData errorMessages (s : St W) :
  let out := (fetch (world s) (url endpoint)).1 in
  let s1 := requested s (url endpoint) out (fetch (world s) (url endpoint)).2 in
  try_endpoint fetch endpoint (playerData, errorMessages) s =
  if truthy (delivered out) then
    match parsePlayer endpoint (delivered out) with
    | Ok parsedPlayer =>
        if identified parsedPlayer
        then (Ok (Break, (parsedPlayer, errorMessages)), s1)
        else (Ok (Next, (playerData, errorMessages)), s1)
    | Throw e =>
        (Ok (Next, (playerData, errorMessages ++ [(name endpoint, e)])),
         mkSt (world s1) (fetched s1) (console s1 ++ [EndpointError (name endpoint) e]))
    end
  else (Ok (Next, (playerData, errorMessages)), s1).
Proof.
  simpl. unfold try_endpoint, try_catch, mbind, M_bind.
  rewrite makeNHLRequest_spec.
  destruct (truthy (delivered _)); [|reflexivity].
  unfold lift. destruct (parsePlayer endpoint _) as [parsedPlayer|e]; simpl.
  - destruct (identified parsedPlayer); reflexivity.
  - reflexivity.
Qed.

(** The endpoint loop never throws and requests a prefix of the endpoint
    URLs; [playerData] stays as it was until an endpoint identifies the
    player, which ends the loop. *)
Lemma player_loop_spec (eps : list Endpoint) playerData errorMessages (s : St W) :
  exists playerData' errorMessages' s' n,
    for_of eps (try_endpoint fetch) (playerData, errorMessages) s =
      (Ok (playerData', errorMessages'), s') /\
    (n <= length eps)%nat /\
    fetched s' = fetched s ++ map url (take n eps) /\
    (playerData' = playerData /\ n = length eps \/ identified playerData' = true).
Proof.
  revert playerData errorMessages s.
  induction eps as [|ep eps IH]; intros playerData errorMessages s.
  - exists playerData, errorMessages, s, 0%nat. simpl. rewrite app_nil_r.
    split; [reflexivity|]. split; [lia|]. split; [reflexivity|left; auto].
  - rewrite for_of_cons, player_endpoint_spec.
    set (s1 := requested s (url ep) _ _).
    assert (Hf1 : fetched s1 = fetched s ++ [url ep]) by reflexivity.
    assert (Hnext : forall errs (s2 : St W), fetched s2 = fetched s ++ [url ep] ->
      exists playerData' errorMessages' s' n,
        for_of eps (try_endpoint fetch) (playerData, errs) s2 =
          (Ok (playerData', errorMessages'), s') /\
        (n <= length (ep :: eps))%nat /\
        fetched s' = fetched s ++ map url (take n (ep :: eps)) /\
        (playerData' = playerData /\ n = length (ep :: eps) \/ identified playerData' = true)).
    { intros errs s2 Hf2.
      destruct (IH playerData errs s2) as (p & e & s' & n & Hl & Hle & Hf & Hcase).
      exists p, e, s', (S n). split; [exact Hl|]. split; [simpl; lia|]. split.
      - rewrite Hf, Hf2. simpl. rewrite <- app_assoc. reflexivity.
      - destruct Hcase as [[-> ->]|Hid]; [left; auto|right; exact Hid]. }
    destruct (truthy (delivered _)); [|apply Hnext; exact Hf1].
    destruct (parsePlayer ep _) as [parsedPlayer|e]; [|apply Hnext; exact Hf1].
    destruct (identified parsedPlayer) eqn:Hid; [|apply Hnext; exact Hf1].
    exists parsedPlayer, errorMessages, s1, 1%nat.
    split; [reflexivity|]. split; [simpl; lia|]. split; [|right; exact Hid].
    rewrite Hf1. destruct eps; reflexivity.
Qed.

Lemma lookup_step_spec teamId url loc err (s : St W) :
  let out := (fetch (world s) url).1 in
  let s1 := requested s url out (fetch (world s) url).2 in
  lookup_step fetch teamId url (loc, err) s =
  if truthy (delivered out) then
    match read_teams teamId (delivered out) loc with
    | (loc', Some e) => (Ok (Break, (loc', Some e)), s1)
    | (loc', None) =>
        (Ok (if is_unknown loc' then Next else Break, (loc', None)), s1)
    end
  else (Ok (Next, (loc, None)), s1).
Proof.
  simpl. unfold lookup_step, mbind, M_bind. rewrite makeNHLRequest_spec.
  destruct (truthy (delivered _)); simpl; [|reflexivity].
  destruct (read_teams _ _ _) as [loc' [e|]]; [reflexivity|].
  destruct (is_unknown loc'); reflexivity.
Qed.

(** The lookup loop never throws, requests a prefix of its URLs, and
    stops short of the end only when the team name is known or an
    exception was raised. *)
Lemma lookup_loop_spec teamId (urls : list string) loc (s : St W) :
  exists loc' err s' n,
    for_of urls (lookup_step fetch teamId) (loc, None) s = (Ok (loc', err), s') /\
    (n <= length urls)%nat /\
    fetched s' = fetched s ++ take n urls /\
    ((n < length urls)%nat -> is_unknown loc' = false \/ is_Some err).
Proof.
  revert loc s. induction urls as [|u urls IH]; intros loc s.
  - exists loc, None, s, 0%nat. simpl. rewrite app_nil_r.
    repeat split; [lia|lia].
  - rewrite for_of_cons, lookup_step_spec.
    set (s1 := requested s u _ _).
    assert (Hf1 : fetched s1 = fetched s ++ [u]) by reflexivity.
    assert (Hnext : forall l,
      exists loc' err s' n,
        for_of urls (lookup_step fetch teamId) (l, None) s1 = (Ok (loc', err), s') /\
        (n <= length (u :: urls))%nat /\
        fetched s' = fetched s ++ take n (u :: urls) /\
        ((n < length (u :: urls))%nat -> is_unknown loc' = false \/ is_Some err)).
    { intros l. destruct (IH l s1) as (l' & err & s' & n & Hl & Hle & Hf & Hstop).
      exists l', err, s', (S n). split; [exact Hl|]. split; [simpl; lia|]. split.
      - rewrite Hf, Hf1. simpl. rewrite <- app_assoc. reflexivity.
      - intros Hlt. apply Hstop. simpl in Hlt. lia. }
    assert (Hbreak : forall l (err : option Exn), is_unknown l = false \/ is_Some err ->
      exists loc' err' s' n,
        (Ok (l, err), s1) = (Ok (loc', err'), s') /\
        (n <= length (u :: urls))%nat /\
        fetched s' = fetched s ++ take n (u :: urls) /\
        ((n < length (u :: urls))%nat -> is_unknown loc' = false \/ is_Some err')).
    { intros l err Hwhy. exists l, err, s1, 1%nat. split; [reflexivity|].
      split; [simpl; lia|]. split; [|auto].
      rewrite Hf1. destruct urls; reflexivity. }
    destruct (truthy (delivered _)); [|apply Hnext].
    destruct (read_teams _ _ _) as [loc' [e|]].
    + apply Hbreak. right. eauto.
    + destruct (is_unknown loc') eqn:Hu; [apply Hnext|].
      apply Hbreak. left. exact Hu.
Qed.

(** Once the team name is known, or an exception was raised, at the end
    of a list of URLs, the loop over any longer list stops there. *)
Lemma lookup_loop_stops teamId (urls more : list string) loc loc' err (s s' : St W) :
  is_unknown loc = true ->
  for_of urls (lookup_step fetch teamId) (loc, None) s = (Ok (loc', err), s') ->
  is_unknown loc' = false \/ is_Some err ->
  for_of (urls ++ more) (lookup_step fetch teamId) (loc, None) s = (Ok (loc', err), s').
Proof.
  revert loc s. induction urls as [|u urls IH]; intros loc s Hu Hrun Hwhy.
  - simpl in Hrun. injection Hrun as <- <- <-.
    destruct Hwhy as [H|[e H]]; congruence.
  - change ((u :: urls) ++ more) with (u :: (urls ++ more)).
    rewrite for_of_cons, lookup_step_spec.
    rewrite for_of_cons, lookup_step_spec in Hrun.
    destruct (truthy (delivered _)); [|apply IH; auto].
    destruct (read_teams _ _ _) as [l [e|]]; [exact Hrun|].
    destruct (is_unknown l) eqn:Hl; [apply IH; auto|exact Hrun].
Qed.

(** The requests of the team lookup: those of the loop over [teamUrls],
    then the roster request if one is due. *)
Lemma lookup_team_spec teamId (s : St W) :
  exists st s1 tm s',
    for_of teamUrls (lookup_step fetch teamId) (unknown_team, None) s = (Ok st, s1) /\
    lookup_team fetch teamId s = (Ok tm, s') /\
    fetched s' = fetched s1 ++ roster_request st.
Proof.
  destruct (lookup_loop_spec teamId teamUrls unknown_team s)
    as (loc & err & s1 & n & Hl & _ & _ & _).
  exists (loc, err), s1. unfold lookup_team, mbind, M_bind. rewrite Hl.
  destruct err as [e|]; simpl.
  - eexists _, _. split; [reflexivity|]. split; [reflexivity|].
    simpl. rewrite app_nil_r. reflexivity.
  - destruct (truthy (teamAbbrev loc) && is_unknown loc).
    + rewrite makeNHLRequest_spec.
      destruct (truthy (delivered _));
        eexists _, _; (split; [reflexivity|]); (split; reflexivity).
    + eexists _, _. split; [reflexivity|]. split; [reflexivity|].
      simpl. rewrite app_nil_r. reflexivity.
Qed.

(** The handler never throws before it formats its answer.  Without a
    resolved player it requests nothing after the endpoint loop; with
    one, it requests the game log and then, only if [teamId] is truthy,
    what the team lookup requests. *)
Lemma get_player_spec playerId (s : St W) :
  exists playerData errorMessages s1 result s' lookups,
    resolve fetch (endpoints playerId) s = (Ok (playerData, errorMessages), s1) /\
    get_player fetch playerId s = (Ok result, s') /\
    fetched s' =
      fetched s1 ++ (if truthy playerData then stats_url playerId :: lookups else []) /\
    (truthy playerData = false -> result = inl (failure_text playerId)) /\
    (lookups <> [] -> truthy (prop playerData "teamId") = true) /\
    (truthy (prop playerData "teamId") = true ->
     forall s2, (makeNHLRequest fetch (stats_url playerId) s1).2 = s2 ->
       exists st s3,
         for_of teamUrls (lookup_step fetch (prop playerData "teamId"))
                (unknown_team, None) s2 = (Ok st, s3) /\
         fetched s3 ++ roster_request st = fetched s2 ++ lookups).
Proof.
  unfold resolve.
  destruct (player_loop_spec (endpoints playerId) JNull [] s)
    as (p & e & s1 & n & Hl & _ & _ & _).
  unfold get_player, resolve, mbind, M_bind. rewrite Hl.
  destruct (truthy p) eqn:Hp; cbn [negb].
  - rewrite makeNHLRequest_spec.
    set (s2 := requested s1 _ _ _).
    destruct (truthy (prop p "teamId")) eqn:Hid.
    + destruct (lookup_team_spec (prop p "teamId") s2) as (st & s3 & tm & s' & Hloop & Hlk & Hf).
      rewrite Hlk.
      assert (Hpre : exists l, fetched s3 = fetched s2 ++ l).
      { destruct st as [loc err].
        destruct (lookup_loop_spec (prop p "teamId") teamUrls unknown_team s2)
          as (loc' & err' & s3' & m & Hl' & _ & Hf' & _).
        rewrite Hloop in Hl'. injection Hl' as <- <- <-. eauto. }
      destruct Hpre as (l & Hfl).
      exists p, e, s1, (inr (mkResolved p (delivered (fetch (world s1) (stats_url playerId)).1) tm)),
             s', (l ++ roster_request st).
      rewrite Hp.
      split; [reflexivity|]. split; [reflexivity|]. split.
      { rewrite Hf, Hfl. unfold s2, requested. simpl.
        rewrite <- !app_assoc. reflexivity. }
      split; [congruence|]. split; [auto|].
      intros _ s2' Hs2. rewrite makeNHLRequest_spec in Hs2. cbn [snd] in Hs2.
      subst s2'. exists st, s3. split; [exact Hloop|].
      rewrite Hfl, <- app_assoc. reflexivity.
    + eexists p, e, s1, _, _, []. rewrite Hp.
      split; [reflexivity|]. split; [reflexivity|].
      split; [reflexivity|]. split; [congruence|]. split; [congruence|congruence].
  - eexists p, e, s1, _, _, []. rewrite Hp.
    split; [reflexivity|]. split; [reflexivity|].
    split; [simpl; rewrite app_nil_r; reflexivity|].
    split; [reflexivity|]. split; [congruence|].
    intros Hid. destruct p; simpl in *; congruence.
Qed.
End GetPlayerFacts.

Section EnrichmentClaims.
Context {W : Type}.
Variable fetch : W -> string -> FetchOutcome * W.
Variable positive_literal : string -> bool.

(** C9, as amended.  In get-team the club statistics are requested after
    the endpoint loop exactly when a name was resolved, whether or not
    [teamData] already holds a [record].  In get-player nothing is
    requested after the endpoint loop unless the player was resolved;
    then the game log is requested, and the team lookup follows only if
    [teamId] is truthy.  Within the lookup, the loop over [teamUrls]
    requests no further URL once the team name is known (or an exception
    was raised), and the roster is requested only while the name is still
    "Unknown Team". *)
Theorem C9_enrichment_follows_resolution :
  (forall eps teamAbbrev (s : St W),
     let teamCode := Str.trim (Str.toUpperCase teamAbbrev) in
     exists teamData errorMessages s1,
       GetTeam.resolve fetch (eps teamCode) s = (Ok (teamData, errorMessages), s1) /\
       fetched (GetTeam.handler fetch positive_literal eps teamAbbrev s).2 =
         fetched s1 ++ (if truthy (GetTeam.field teamData "name")
                        then [GetTeam.stats_url teamCode] else [])) /\
  (forall playerId (s : St W),
     exists playerData errorMessages s1 result s' lookups,
       GetPlayer.resolve fetch (GetPlayer.endpoints playerId) s
         = (Ok (playerData, errorMessages), s1) /\
       GetPlayer.get_player fetch playerId s = (Ok result, s') /\
       fetched s' =
         fetched s1 ++ (if truthy playerData
                        then GetPlayer.stats_url playerId :: lookups else []) /\
       (truthy playerData = false -> result = inl (GetPlayer.failure_text playerId)) /\
       (lookups <> [] -> truthy (prop playerData "teamId") = true) /\
       (truthy (prop playerData "teamId") = true ->
        forall s2, (makeNHLRequest fetch (GetPlayer.stats_url playerId) s1).2 = s2 ->
          exists st s3,
            for_of GetPlayer.teamUrls
                   (GetPlayer.lookup_step fetch (prop playerData "teamId"))
                   (GetPlayer.unknown_team, None) s2 = (Ok st, s3) /\
            fetched s3 ++ GetPlayer.roster_request st = fetched s2 ++ lookups)) /\
  (forall teamId urls more loc loc' err (s s' : St W),
     GetPlayer.is_unknown loc = true ->
     for_of urls (GetPlayer.lookup_step fetch teamId) (loc, None) s = (Ok (loc', err), s') ->
     GetPlayer.is_unknown loc' = false \/ is_Some err ->
     for_of (urls ++ more) (GetPlayer.lookup_step fetch teamId) (loc, None) s
       = (Ok (loc', err), s')) /\
  (forall loc err, GetPlayer.is_unknown loc = false -> GetPlayer.roster_request (loc, err) = []).
Proof.
  split; [|split; [|split]].
  - intros eps teamAbbrev s teamCode.
    destruct (loop_spec fetch (eps teamCode) ∅ [] s complete_empty)
      as (td & e & s1 & n & Hl & _).
    exists td, e, s1. split; [exact Hl|].
    rewrite handler_spec. unfold GetTeam.resolve. fold teamCode. rewrite Hl, answer_spec.
    destruct (truthy (GetTeam.field td "name")).
    + simpl. destruct (GetTeam.team_info _ _ _ _); reflexivity.
    + simpl. rewrite app_nil_r. reflexivity.
  - apply get_player_spec.
  - apply lookup_loop_stops.
  - intros loc [e|] Hknown; simpl; [reflexivity|].
    rewrite Hknown, andb_false_r. reflexivity.
Qed.
End EnrichmentClaims.

(** C9 as stated fails for get-team: only the standings answer, the
    merged [teamData] holds a [record], and the club statistics are
    requested again after the loop all the same. *)
Lemma C9_stats_requested_despite_record :
  truthy (GetTeam.field (Samples.team_data_after Samples.world_standings_only 4) "record")
    = true /\
  Samples.trace (GetTeam.get_team Samples.world_standings_only Samples.no_literal "TOR"
                                  (start tt))
    = [Samples.roster_url; Samples.club_stats_url; Samples.team_info_url;
       Samples.standings_url; Samples.club_stats_url].
Proof. split; vm_compute; reflexivity. Qed.

(** ** safeString *)

(** C7, as amended.  Both helpers return without throwing.  The one in
    [src/demo.ts] returns a string for every value: the value itself
    for a string, its string conversion for a number or a boolean, and
    the caller's default for null, undefined, objects and arrays.  The
    localized one agrees with it on every value that is not an object or
    array; for an object or array it returns the [default] property when
    that is a non-empty string, and the caller's default when that
    property is absent or otherwise falsy. *)
Theorem C7_safeString_by_cases (value : JsVal) (defaultValue : string) :
  SafeString.safeString value defaultValue =
    JStr (match value with
          | JStr s => s
          | JNum _ | JBool _ => to_string value
          | JUndef | JNull | JArr _ | JObj _ => defaultValue
          end) /\
  match value with
  | JArr _ | JObj _ =>
      (forall s, prop value "default" = JStr s -> s <> "" ->
                 SafeString.safeString_localized value defaultValue = JStr s) /\
      (truthy (prop value "default") = false ->
       SafeString.safeString_localized value defaultValue = JStr defaultValue)
  | _ =>
      SafeString.safeString_localized value defaultValue =
      SafeString.safeString value defaultValue
  end.
Proof.
  split.
  - destruct value; reflexivity.
  - destruct value; try reflexivity.
    + split; [intros s Hs; discriminate|reflexivity].
    + split.
      * intros s Hs Hne. unfold SafeString.safeString_localized. simpl.
        simpl in Hs. rewrite Hs. simpl.
        destruct (String.eqb_spec s ""); [contradiction|reflexivity].
      * intros Hf. unfold SafeString.safeString_localized. simpl.
        simpl in Hf. rewrite Hf. reflexivity.
Qed.

(** C7 as stated fails for the localized helper: a localized wrapper
    is an object, and the helper returns its [default], not the caller's
    default. *)
Lemma C7_localized_wrapper_is_unwrapped :
  typeof (JObj [("default", JStr "Oshawa")]) = "object" /\
  SafeString.safeString_localized (JObj [("default", JStr "Oshawa")]) "Unknown City"
    = JStr "Oshawa" /\
  JStr "Oshawa" <> JStr "Unknown City".
Proof. split; [reflexivity|split; [reflexivity|discriminate]]. Qed.

(** ** get-current-standings *)

Section StandingsFacts.
Import Standings.

Lemma insert_team_perm team sorted : insert_team team sorted ≡ₚ team :: sorted.
Proof.
  induction sorted as [|u rest IH]; simpl; [reflexivity|].
  destruct (before team u); [reflexivity|].
  rewrite IH. apply Permutation_swap.
Qed.

Lemma sort_by_points_perm teams : sort_by_points teams ≡ₚ teams.
Proof.
  induction teams as [|t teams IH]; simpl; [reflexivity|].
  rewrite insert_team_perm. rewrite IH. reflexivity.
Qed.

Lemma insert_team_sorted team sorted :
  StronglySorted at_least sorted -> StronglySorted at_least (insert_team team sorted).
Proof.
  induction 1 as [|u rest Hs IH Hall]; simpl.
  - repeat constructor.
  - unfold before. destruct (Z.leb_spec (num_or_zero (points u)) (num_or_zero (points team))).
    + constructor; [constructor; assumption|].
      constructor; [assumption|].
      eapply Forall_impl; [exact Hall|]. unfold at_least. intros; lia.
    + constructor; [exact IH|].
      rewrite insert_team_perm. constructor; [unfold at_least; lia|exact Hall].
Qed.

Lemma sort_by_points_sorted teams : StronglySorted at_least (sort_by_points teams).
Proof.
  induction teams as [|t teams IH]; simpl; [constructor|].
  apply insert_team_sorted, IH.
Qed.

Lemma teams_in_push d t m d' :
  teams_in d' (push_team d t m) =
  if String.eqb d d' then teams_in d' m ++ [t] else teams_in d' m.
Proof.
  induction m as [|[k ts] m IH]; simpl.
  - destruct (String.eqb d d'); reflexivity.
  - destruct (String.eqb_spec k d) as [->|Hkd]; simpl.
    + destruct (String.eqb d d'); reflexivity.
    + destruct (String.eqb_spec k d') as [->|Hkd'].
      * destruct (String.eqb_spec d d') as [->|_]; [contradiction|reflexivity].
      * exact IH.
Qed.

Lemma push_team_keys d t m :
  (push_team d t m).*1 = if decide (d ∈ m.*1) then m.*1 else m.*1 ++ [d].
Proof.
  induction m as [|[k ts] m IH]; csimpl; [reflexivity|].
  destruct (String.eqb_spec k d) as [->|Hkd]; csimpl.
  - rewrite decide_True by (apply elem_of_cons; auto). reflexivity.
  - rewrite IH. destruct (decide (d ∈ m.*1)) as [Hin|Hout].
    + rewrite decide_True by (apply elem_of_cons; auto). reflexivity.
    + rewrite decide_False; [reflexivity|].
      rewrite elem_of_cons. intros [->|?]; contradiction.
Qed.

Lemma push_team_NoDup d t m : NoDup m.*1 -> NoDup (push_team d t m).*1.
Proof.
  intros Hm. rewrite push_team_keys. destruct (decide (d ∈ m.*1)); [exact Hm|].
  apply NoDup_app. split; [exact Hm|]. split.
  - intros x Hx Hd. apply list_elem_of_singleton in Hd. congruence.
  - apply NoDup_singleton.
Qed.

Lemma teams_in_entry d ts m : NoDup m.*1 -> (d, ts) ∈ m -> teams_in d m = ts.
Proof.
  induction m as [|[k us] m IH]; csimpl; intros Hnd Hin.
  - apply elem_of_nil in Hin. contradiction.
  - apply NoDup_cons in Hnd as [Hk Hnd]. apply elem_of_cons in Hin as [Heq|Hin].
    + injection Heq as <- <-. rewrite String.eqb_refl. reflexivity.
    + destruct (String.eqb_spec k d) as [->|_]; [|auto].
      exfalso. apply Hk. apply list_elem_of_fmap. exists (d, ts). auto.
Qed.

Lemma group_fold rows m :
  let m' := fold_left (fun divisionMap team => push_team (division_of team) team divisionMap)
                      rows m in
  (NoDup m.*1 -> NoDup m'.*1) /\
  forall d, teams_in d m' = teams_in d m ++ filter (fun t => division_of t = d) rows.
Proof.
  revert m. induction rows as [|t rows IH]; intros m; simpl.
  - split; [auto|]. intros d. rewrite app_nil_r. reflexivity.
  - destruct (IH (push_team (division_of t) t m)) as [Hnd Hgr]. split.
    + intros Hm. apply Hnd, push_team_NoDup, Hm.
    + intros d. rewrite Hgr, teams_in_push, filter_cons.
      destruct (String.eqb_spec (division_of t) d) as [Heq|Hne].
      * rewrite decide_True by exact Heq. rewrite <- app_assoc. reflexivity.
      * rewrite decide_False by exact Hne. reflexivity.
Qed.

(** Each entry of [divisionMap] holds the rows of its division, in
    document order. *)
Lemma group_by_division_entry rows d ts :
  (d, ts) ∈ group_by_division rows -> ts = filter (fun t => division_of t = d) rows.
Proof.
  intros Hin. destruct (group_fold rows []) as [Hnd Hgr].
  rewrite <- (teams_in_entry d ts (group_by_division rows)); [|apply Hnd, NoDup_nil_2|exact Hin].
  apply Hgr.
Qed.
End StandingsFacts.

(** C10.  For a response with a non-empty [standings] array, the answer
    lists, for each division in order of first appearance, a header and
    one row per team of that division; the rows of a division are a
    rearrangement of its teams in which no team has fewer points than a
    later one (absent points counting as 0); and in every row the second
    column is wins + losses + otLosses, each counting as 0 when absent,
    whatever [gamesPlayed] the upstream row carries. *)
Theorem C10_standings_rows (response : Standings.StandingsResponse)
    (rows : list Standings.TeamRow) :
  Standings.standings response = Some rows ->
  rows <> [] ->
  Standings.format_standings response =
    concat (map Standings.format_division (Standings.group_by_division rows)) /\
  (forall division teams,
     (division, teams) ∈ Standings.group_by_division rows ->
     teams = filter (fun t => Standings.division_of t = division) rows /\
     Standings.format_division (division, teams) =
       Standings.division_header division ++
       map Standings.format_row (Standings.sort_by_points teams) /\
     Standings.sort_by_points teams ≡ₚ teams /\
     StronglySorted Standings.at_least (Standings.sort_by_points teams)) /\
  (forall team,
     Standings.format_row team = join " | " (Standings.row_cells team) /\
     Standings.row_cells team !! 1%nat =
       Some (pretty (Standings.num_or_zero (Standings.wins team) +
                     Standings.num_or_zero (Standings.losses team) +
                     Standings.num_or_zero (Standings.otLosses team))) /\
     forall gp,
       Standings.row_cells
         (Standings.mkTeamRow (Standings.divisionName team) (Standings.teamName team) gp
            (Standings.wins team) (Standings.losses team) (Standings.otLosses team)
            (Standings.points team) (Standings.goalsFor team) (Standings.goalAgainst team))
       = Standings.row_cells team).
Proof.
  intros Hrows Hne. split; [|split].
  - unfold Standings.format_standings. rewrite Hrows.
    destruct rows; [contradiction|reflexivity].
  - intros division teams Hin. split; [|split; [|split]].
    + apply group_by_division_entry, Hin.
    + reflexivity.
    + apply sort_by_points_perm.
    + apply sort_by_points_sorted.
  - intros team. split; [reflexivity|]. split; reflexivity.
Qed.

Lemma C10_standings_rows_witness :
  Standings.standings Samples.standings_response = Some [Samples.row_bos; Samples.row_tor] /\
  [Samples.row_bos; Samples.row_tor] <> [] /\
  Standings.format_standings Samples.standings_response =
    Standings.division_header "Atlantic" ++
    [ "Toronto Maple Leafs | 64 | 42 | 18 | 4 | 88 | 230 | 190";
      "Boston Bruins | 58 | 38 | 20 | 0 | 80 | 200 | 180" ].
Proof.
  split; [reflexivity|]. split; [discriminate|].
  rewrite (proj1 (C10_standings_rows Samples.standings_response
                    [Samples.row_bos; Samples.row_tor] eq_refl
                    ltac:(discriminate))).
  vm_compute. reflexivity.
Defined.

(** ** get-skater-leaders: the URL loop *)

Section SkaterLeadersFacts.
Import SkaterLeaders.
Context {W : Type}.
Variable fetch : W -> string -> FetchOutcome * W.
Variable positive_literal : string -> bool.

Lemma try_source_spec endpoint result errors (s : St W) :
  let out := (fetch (world s) (url endpoint)).1 in
  let s1 := requested s (url endpoint) out (fetch (world s) (url endpoint)).2 in
  try_source fetch positive_literal endpoint (result, errors) s =
  if truthy (delivered out) then
    match extract endpoint (delivered out) with
    | Ok extracted =>
        if has_leaders positive_literal extracted
        then (Ok (Break, (extracted, errors)), s1)
        else (Ok (Next, (result, errors)), s1)
    | Throw e =>
        (Ok (Next, (result, errors ++ [(format endpoint, e)])),
         mkSt (world s1) (fetched s1) (console s1 ++ [EndpointError (format endpoint) e]))
    end
  else (Ok (Next, (result, errors)), s1).
Proof.
  simpl. unfold try_source, try_catch, mbind, M_bind.
  rewrite makeNHLRequest_spec.
  destruct (truthy (delivered _)); [|reflexivity].
  unfold lift. simpl. destruct (extract endpoint _) as [extracted|e]; simpl.
  - destruct (has_leaders positive_literal extracted); reflexivity.
  - reflexivity.
Qed.

Lemma empty_list_has_no_leaders e :
  leaders e = JArr [] -> has_leaders positive_literal (Some e) = false.
Proof. intros H. unfold has_leaders. rewrite H. reflexivity. Qed.

Lemma has_leaders_Some extracted :
  has_leaders positive_literal extracted = true -> exists e, extracted = Some e.
Proof. destruct extracted; [eauto|discriminate]. Qed.

(** The loop from [result = null] never throws.  It ends with [null]
    after requesting every source, or with the extraction of a source
    that has leaders, requested right after a run over the sources before
    it that ended with [null]. *)
Lemma leaders_loop_spec (sources : list Source) errors (s : St W) :
  exists result errors' s',
    for_of sources (try_source fetch positive_literal) (None, errors) s =
      (Ok (result, errors'), s') /\
    match result with
    | None => fetched s' = fetched s ++ map url sources
    | Some e =>
        exists before source after errors0 s0,
          sources = before ++ source :: after /\
          for_of before (try_source fetch positive_literal) (None, errors) s =
            (Ok (None, errors0), s0) /\
          truthy (delivered (fetch (world s0) (url source)).1) = true /\
          extract source (delivered (fetch (world s0) (url source)).1) = Ok (Some e) /\
          has_leaders positive_literal (Some e) = true /\
          errors' = errors0 /\
          s' = requested s0 (url source) (fetch (world s0) (url source)).1
                         (fetch (world s0) (url source)).2
    end.
Proof.
  revert errors s. induction sources as [|src sources IH]; intros errors s.
  - exists None, errors, s. split; [reflexivity|]. simpl. rewrite app_nil_r. reflexivity.
  - rewrite for_of_cons.
    pose proof (try_source_spec src None errors s) as Hstep. cbv zeta in Hstep.
    set (s1 := requested s (url src) _ _) in *.
    assert (Hnext : forall errs (s2 : St W),
      fetched s2 = fetched s ++ [url src] ->
      try_source fetch positive_literal src (None, errors) s = (Ok (Next, (None, errs)), s2) ->
      exists result errors' s',
        for_of sources (try_source fetch positive_literal) (None, errs) s2 =
          (Ok (result, errors'), s') /\
        match result with
        | None => fetched s' = fetched s ++ map url (src :: sources)
        | Some e =>
            exists before source after errors0 s0,
              src :: sources = before ++ source :: after /\
              for_of before (try_source fetch positive_literal) (None, errors) s =
                (Ok (None, errors0), s0) /\
              truthy (delivered (fetch (world s0) (url source)).1) = true /\
              extract source (delivered (fetch (world s0) (url source)).1) = Ok (Some e) /\
              has_leaders positive_literal (Some e) = true /\
              errors' = errors0 /\
              s' = requested s0 (url source) (fetch (world s0) (url source)).1
                             (fetch (world s0) (url source)).2
        end).
    { intros errs s2 Hf2 Hs.
      destruct (IH errs s2) as (r & e' & s' & Hl & Hr).
      exists r, e', s'. split; [exact Hl|].
      destruct r as [e|].
      - destruct Hr as (before & source & after & e0 & s0 & -> & Hb & Hrest).
        exists (src :: before), source, after, e0, s0. split; [reflexivity|].
        split; [|exact Hrest].
        rewrite for_of_cons, Hs. exact Hb.
      - rewrite Hr, Hf2. simpl. rewrite <- app_assoc. reflexivity. }
    rewrite Hstep. rewrite Hstep in Hnext.
    destruct (truthy (delivered _)) eqn:Hdata; [|apply Hnext; reflexivity].
    destruct (extract src _) as [extracted|e] eqn:Hex; [|apply Hnext; reflexivity].
    destruct (has_leaders positive_literal extracted) eqn:Hhas; [|apply Hnext; reflexivity].
    destruct (has_leaders_Some _ Hhas) as (e & ->).
    exists (Some e), errors, s1. split; [reflexivity|].
    exists [], src, sources, errors, s. repeat split; assumption.
Qed.

(** A run that ends without a result has passed over each of its
    sources: each was reached without a result, and then delivered
    nothing, or its extraction threw, or it extracted no leaders. *)
Lemma loop_none_passes (sources : list Source) errors errors' (s s' : St W) :
  for_of sources (try_source fetch positive_literal) (None, errors) s =
    (Ok (None, errors'), s') ->
  forall before source after,
    sources = before ++ source :: after ->
    exists errors0 s0,
      for_of before (try_source fetch positive_literal) (None, errors) s =
        (Ok (None, errors0), s0) /\
      (truthy (delivered (fetch (world s0) (url source)).1) = false \/
       (exists e, extract source (delivered (fetch (world s0) (url source)).1) = Throw e) \/
       (exists extracted,
          extract source (delivered (fetch (world s0) (url source)).1) = Ok extracted /\
          has_leaders positive_literal extracted = false)).
Proof.
  revert errors s. induction sources as [|src sources IH]; intros errors s Hrun before source after Hsplit.
  - destruct before; discriminate.
  - rewrite for_of_cons in Hrun.
    assert (Hstep : forall errs (s1 : St W),
      try_source fetch positive_literal src (None, errors) s = (Ok (Next, (None, errs)), s1) ->
      for_of sources (try_source fetch positive_literal) (None, errs) s1 =
        (Ok (None, errors'), s') ->
      (truthy (delivered (fetch (world s) (url src)).1) = false \/
       (exists e, extract src (delivered (fetch (world s) (url src)).1) = Throw e) \/
       (exists extracted,
          extract src (delivered (fetch (world s) (url src)).1) = Ok extracted /\
          has_leaders positive_literal extracted = false)) ->
      exists errors0 s0,
        for_of before (try_source fetch positive_literal) (None, errors) s =
          (Ok (None, errors0), s0) /\
        (truthy (delivered (fetch (world s0) (url source)).1) = false \/
         (exists e, extract source (delivered (fetch (world s0) (url source)).1) = Throw e) \/
         (exists extracted,
            extract source (delivered (fetch (world s0) (url source)).1) = Ok extracted /\
            has_leaders positive_literal extracted = false))).
    { intros errs s1 Hone Hrest Hpass. destruct before as [|b before].
      - injection Hsplit as <- <-. exists errors, s. split; [reflexivity|exact Hpass].
      - injection Hsplit as <- ->.
        destruct (IH errs s1 Hrest before source after eq_refl) as (e0 & s0 & Hb & Hs).
        exists e0, s0. split; [|exact Hs]. rewrite for_of_cons, Hone. exact Hb. }
    pose proof (try_source_spec src None errors s) as Hspec.
    cbv zeta in Hspec.
    destruct (truthy (delivered (fetch (world s) (url src)).1)) eqn:Hdata.
    + destruct (extract src (delivered (fetch (world s) (url src)).1))
        as [extracted|e] eqn:Hex.
      * destruct (has_leaders positive_literal extracted) eqn:Hhas.
        -- rewrite Hspec in Hrun. cbv beta iota in Hrun.
           injection Hrun as -> _ _. discriminate.
        -- rewrite Hspec in Hrun.
           eapply Hstep; [exact Hspec|exact Hrun|]. right. right. eauto.
      * rewrite Hspec in Hrun.
        eapply Hstep; [exact Hspec|exact Hrun|]. right. left. eauto.
    + rewrite Hspec in Hrun.
      eapply Hstep; [exact Hspec|exact Hrun|]. left. reflexivity.
Qed.

(** A run that ends without a result goes on with the sources that
    follow. *)
Lemma loop_none_app (before rest : list Source) errors errors0 (s s0 : St W) :
  for_of before (try_source fetch positive_literal) (None, errors) s =
    (Ok (None, errors0), s0) ->
  for_of (before ++ rest) (try_source fetch positive_literal) (None, errors) s =
  for_of rest (try_source fetch positive_literal) (None, errors0) s0.
Proof.
  revert errors s. induction before as [|src before IH]; intros errors s Hrun.
  - injection Hrun as <- <-. reflexivity.
  - change ((src :: before) ++ rest) with (src :: (before ++ rest)).
    rewrite for_of_cons in Hrun. rewrite for_of_cons.
    pose proof (try_source_spec src None errors s) as Hspec.
    cbv zeta in Hspec. rewrite Hspec in Hrun. rewrite Hspec. clear Hspec.
    destruct (truthy (delivered (fetch (world s) (url src)).1)).
    + destruct (extract src (delivered (fetch (world s) (url src)).1)) as [extracted|e].
      * destruct (has_leaders positive_literal extracted) eqn:Hhas.
        -- cbv beta iota in Hrun. injection Hrun as -> _ _. discriminate.
        -- apply IH. exact Hrun.
      * apply IH. exact Hrun.
    + apply IH. exact Hrun.
Qed.
End SkaterLeadersFacts.

Section SkaterLeadersClaims.
Import SkaterLeaders.
Context {W : Type}.
Variable fetch : W -> string -> FetchOutcome * W.
Variable positive_literal : string -> bool.

(** C6.  The URL loop never throws.  A source whose extraction yields an
    empty leaders list is passed over: the loop goes on with the next
    source and an unchanged result.  The result is taken from the first
    source, in order, whose response was truthy and whose extracted
    leaders were truthy with a length above zero: a run that ends without
    a result has requested every source and has passed over each of
    them, none having delivered leaders when it was reached; and a source
    that delivers leaders when it is reached without a result gives the
    result of the whole run, the sources after it not being requested. *)
Theorem C6_first_source_with_leaders_wins (sources : list Source) (s : St W) :
  (exists result errors s',
     select_leaders fetch positive_literal sources s = (Ok (result, errors), s') /\
     match result with
     | None => fetched s' = fetched s ++ map url sources
     | Some e =>
         exists before source after errors0 s0,
           sources = before ++ source :: after /\
           select_leaders fetch positive_literal before s = (Ok (None, errors0), s0) /\
           truthy (delivered (fetch (world s0) (url source)).1) = true /\
           extract source (delivered (fetch (world s0) (url source)).1) = Ok (Some e) /\
           has_leaders positive_literal (Some e) = true /\
           errors = errors0 /\
           s' = requested s0 (url source) (fetch (world s0) (url source)).1
                          (fetch (world s0) (url source)).2
     end) /\
  (forall errors s',
     select_leaders fetch positive_literal sources s = (Ok (None, errors), s') ->
     forall before source after,
       sources = before ++ source :: after ->
       exists errors0 s0,
         select_leaders fetch positive_literal before s = (Ok (None, errors0), s0) /\
         (truthy (delivered (fetch (world s0) (url source)).1) = false \/
          (exists e, extract source (delivered (fetch (world s0) (url source)).1) = Throw e) \/
          (exists extracted,
             extract source (delivered (fetch (world s0) (url source)).1) = Ok extracted /\
             has_leaders positive_literal extracted = false))) /\
  (forall before source after errors0 s0 e,
     sources = before ++ source :: after ->
     select_leaders fetch positive_literal before s = (Ok (None, errors0), s0) ->
     truthy (delivered (fetch (world s0) (url source)).1) = true ->
     extract source (delivered (fetch (world s0) (url source)).1) = Ok (Some e) ->
     has_leaders positive_literal (Some e) = true ->
     select_leaders fetch positive_literal sources s =
       (Ok (Some e, errors0),
        requested s0 (url source) (fetch (world s0) (url source)).1
                  (fetch (world s0) (url source)).2)) /\
  (forall source rest result errors (s0 : St W) e,
     extract source (delivered (fetch (world s0) (url source)).1) = Ok (Some e) ->
     leaders e = JArr [] ->
     for_of (source :: rest) (try_source fetch positive_literal) (result, errors) s0 =
     for_of rest (try_source fetch positive_literal) (result, errors)
            (requested s0 (url source) (fetch (world s0) (url source)).1
                       (fetch (world s0) (url source)).2)).
Proof.
  split; [|split; [|split]].
  - apply leaders_loop_spec.
  - intros errors s' Hrun. exact (loop_none_passes fetch positive_literal sources [] errors s s' Hrun).
  - intros before source after errors0 s0 e -> Hbefore Hdata Hex Hhas.
    unfold select_leaders in *.
    rewrite (loop_none_app fetch positive_literal before (source :: after) [] errors0 s s0 Hbefore).
    rewrite for_of_cons, try_source_spec. cbv zeta. rewrite Hdata, Hex, Hhas. reflexivity.
  - intros source rest result errors s0 e Hex Hempty.
    rewrite for_of_cons, try_source_spec. cbv zeta. rewrite Hex.
    rewrite (empty_list_has_no_leaders positive_literal e Hempty).
    destruct (truthy (delivered _)); reflexivity.
Qed.
End SkaterLeadersClaims.

(** The scenario of the specification: the first source lists no leaders,
    the second lists two, and the result is the second source's list; the
    third source is not requested. *)
Lemma skater_leaders_fall_through :
  let r := SkaterLeaders.select_leaders Samples.world_leaders Samples.no_literal
             (SkaterLeaders.urls "goals" 10) (start tt) in
  option_map SkaterLeaders.leaders (Samples.returned (None, []) r).1
    = Some (prop Samples.stats_two_leaders "data") /\
  Samples.trace r = map SkaterLeaders.url (take 2 (SkaterLeaders.urls "goals" 10)).
Proof. split; vm_compute; reflexivity. Qed.

(** The scenario again, through the theorem: the second source is
    reached without a result and delivers two leaders, which are the
    result of the run over all three sources. *)
Lemma C6_first_source_with_leaders_wins_witness :
  let sources := SkaterLeaders.urls "goals" 10 in
  let source :=
    SkaterLeaders.mkSource
      "https://api.nhle.com/stats/rest/en/leaders/skaters/goals?limit=10"
      "stats-direct" (SkaterLeaders.extract_stats_direct "goals") in
  let e := SkaterLeaders.mkExtracted (prop Samples.stats_two_leaders "data")
             (JStr "goals") (JStr "current") in
  let s0 := mkSt tt [SkaterLeaders.url (SkaterLeaders.mkSource
                       "https://api-web.nhle.com/v1/skater-stats-leaders/current?categories=goals&limit=10"
                       "web" (SkaterLeaders.extract_web "goals"))] [] in
  sources = take 1 sources ++ source :: drop 2 sources /\
  SkaterLeaders.select_leaders Samples.world_leaders Samples.no_literal (take 1 sources)
    (start tt) = (Ok (None, []), s0) /\
  SkaterLeaders.has_leaders Samples.no_literal (Some e) = true /\
  SkaterLeaders.select_leaders Samples.world_leaders Samples.no_literal sources (start tt) =
    (Ok (Some e, []),
     requested s0 (SkaterLeaders.url source)
       (Samples.world_leaders (world s0) (SkaterLeaders.url source)).1
       (Samples.world_leaders (world s0) (SkaterLeaders.url source)).2).
Proof.
  intros sources source e s0.
  assert (H1 : sources = take 1 sources ++ source :: drop 2 sources) by reflexivity.
  assert (H2 : SkaterLeaders.select_leaders Samples.world_leaders Samples.no_literal
                 (take 1 sources) (start tt) = (Ok (None, []), s0))
    by (vm_compute; reflexivity).
  assert (H3 : SkaterLeaders.has_leaders Samples.no_literal (Some e) = true) by reflexivity.
  split; [exact H1|]. split; [exact H2|]. split; [exact H3|].
  apply (proj1 (proj2 (proj2 (C6_first_source_with_leaders_wins Samples.world_leaders
                                Samples.no_literal sources (start tt))))
           (take 1 sources) source (drop 2 sources) [] s0 e H1 H2);
    [reflexivity|reflexivity|exact H3].
Defined.

(** * Further properties *)

(** ** get-team: more on the loop and the merge *)

Section GetTeamMore.
Import GetTeam.
Context {W : Type}.
Variable fetch : W -> string -> FetchOutcome * W.
Variable positive_literal : string -> bool.

(** X1.  The endpoint loop never throws and requests a prefix of the
    endpoint URLs in their order; at its end [teamData] is complete or
    every endpoint was requested. *)
Theorem resolve_complete_or_exhausted (eps : list Endpoint) (s : St W) :
  exists teamData errorMessages s' n,
    resolve fetch eps s = (Ok (teamData, errorMessages), s') /\
    (n <= length eps)%nat /\
    fetched s' = fetched s ++ map url (take n eps) /\
    (complete teamData = true \/ n = length eps).
Proof.
  destruct (loop_spec fetch eps ∅ [] s complete_empty)
    as (td & e & s' & n & Hl & Hle & Hf & Hc).
  exists td, e, s', n. split; [exact Hl|]. split; [exact Hle|]. split; [exact Hf|].
  destruct (decide (n < length eps)%nat) as [Hlt|Hge]; [left; auto|right; lia].
Qed.

(** X2.  When an endpoint answers but its parser throws, the loop goes on
    with the next endpoint: [teamData] is unchanged, and the error is
    appended to [errorMessages] and logged. *)
Theorem parser_exception_is_absorbed endpoint (rest : list Endpoint)
    teamData errorMessages (s : St W) e :
  truthy (delivered (fetch (world s) (url endpoint)).1) = true ->
  parseTeam endpoint (delivered (fetch (world s) (url endpoint)).1) = Throw e ->
  let s1 := requested s (url endpoint) (fetch (world s) (url endpoint)).1
                      (fetch (world s) (url endpoint)).2 in
  for_of (endpoint :: rest) (try_endpoint fetch) (teamData, errorMessages) s =
  for_of rest (try_endpoint fetch)
         (teamData, errorMessages ++ [(name endpoint, e)])
         (mkSt (world s1) (fetched s1) (console s1 ++ [EndpointError (name endpoint) e])).
Proof.
  intros Hdata Hthrow s1. rewrite for_of_cons, try_endpoint_spec. cbv zeta.
  rewrite Hdata, Hthrow. reflexivity.
Qed.

(** X3.  The merge step as an operation: merging the empty record, or a
    record with only undefined and null values, changes nothing; merging
    the same record twice is merging it once; and no key is ever
    removed. *)
Theorem merge_algebra (teamData parsedTeam : gmap string JsVal) :
  merge teamData ∅ = teamData /\
  ((forall k, is_nullish (field parsedTeam k) = true) -> merge teamData parsedTeam = teamData) /\
  merge (merge teamData parsedTeam) parsedTeam = merge teamData parsedTeam /\
  dom teamData ⊆ dom (merge teamData parsedTeam).
Proof.
  split; [apply merge_empty_r|]. split; [|split].
  - intros Hnull. apply map_eq. intros k. rewrite lookup_merge.
    specialize (Hnull k). unfold field in Hnull.
    destruct (parsedTeam !! k) as [v|]; simpl in *; [rewrite Hnull|]; reflexivity.
  - apply map_eq. intros k. rewrite !lookup_merge.
    destruct (parsedTeam !! k) as [v|]; [|reflexivity].
    destruct (is_nullish v); reflexivity.
  - intros k. rewrite !elem_of_dom, lookup_merge. intros [x Hx].
    destruct (parsedTeam !! k) as [v|]; [|eauto].
    destruct (is_nullish v); eauto.
Qed.

Lemma stats_lines_null row :
  is_nullish row = true -> is_ok (stats_lines row) = false.
Proof. intros H. unfold stats_lines, get. rewrite H. reflexivity. Qed.

(** X4.  The missing null check in general: whenever a name was
    resolved and the club statistics requested after the loop carry a
    [teamStats] with a length above zero whose first element is null or
    undefined, the handler throws instead of answering. *)
Theorem get_team_throws_on_null_row eps teamAbbrev teamData errorMessages (s s1 : St W) :
  let teamCode := Str.trim (Str.toUpperCase teamAbbrev) in
  resolve fetch (eps teamCode) s = (Ok (teamData, errorMessages), s1) ->
  truthy (field teamData "name") = true ->
  let statsData := delivered (fetch (world s1) (stats_url teamCode)).1 in
  has_stats positive_literal statsData = true ->
  is_nullish (first (prop statsData "teamStats")) = true ->
  is_ok (handler fetch positive_literal eps teamAbbrev s).1 = false.
Proof.
  intros teamCode Hrun Hname statsData Hstats Hnull.
  rewrite handler_spec. fold teamCode. rewrite Hrun, answer_spec, Hname. cbv zeta.
  fold statsData. unfold team_info. rewrite Hstats.
  pose proof (stats_lines_null _ Hnull) as Hthrow.
  destruct (stats_lines (first (prop statsData "teamStats"))); [discriminate|reflexivity].
Qed.

(** X5.  In every answer that is not the failure text, the first line is
    "Team: " followed by [locationName], a space and [teamName] as they
    convert to text; the resolved [name] is not printed, and neither is
    the "(name unavailable)" variant. *)
Theorem team_line_ignores_name teamAbbrev text (s s' : St W) :
  get_team fetch positive_literal teamAbbrev s = (Ok text, s') ->
  text <> failure_text (Str.trim (Str.toUpperCase teamAbbrev)) ->
  exists teamData errorMessages s1 teamInfo,
    resolve fetch (endpoints (Str.trim (Str.toUpperCase teamAbbrev))) s =
      (Ok (teamData, errorMessages), s1) /\
    text = join "\n" teamInfo /\
    teamInfo !! 0%nat =
      Some ("Team: " +:+ to_string (field teamData "locationName") +:+ " " +:+
            to_string (field teamData "teamName")).
Proof.
  intros Hrun Hne. unfold get_team in Hrun.
  destruct (handler_not_found fetch positive_literal endpoints teamAbbrev s)
    as (td & errs & s1 & Hres & Hnone & Hsome).
  destruct (truthy (field td "name")) eqn:Hname.
  - destruct (Hsome eq_refl _ _ Hrun) as [_ (more & ->)].
    exists td, errs, s1, (header_lines (Str.trim (Str.toUpperCase teamAbbrev)) td ++ more).
    split; [exact Hres|]. split; [reflexivity|].
    unfold header_lines, js_or. rewrite Hname. cbv iota. rewrite Hname. reflexivity.
  - destruct (Hnone eq_refl) as [Hh _]. rewrite Hh in Hrun.
    injection Hrun as <- _. contradiction.
Qed.
End GetTeamMore.

Lemma parser_exception_is_absorbed_witness :
  let endpoint := GetTeam.mkEndpoint "Team Info API" Samples.team_info_url
                    (GetTeam.parse_team_info "TOR") in
  let s1 := mkSt tt [Samples.team_info_url] [EndpointError "Team Info API"
                                               (TypeError "find is not a function")] in
  GetTeam.parseTeam endpoint Cases.team_info_not_array
    = Throw (TypeError "find is not a function") /\
  GetTeam.resolve Cases.world_team_info_not_array (endpoint :: []) (start tt) =
    (Ok (∅, [("Team Info API", TypeError "find is not a function")]), s1).
Proof.
  intros endpoint s1. split; [reflexivity|].
  exact (parser_exception_is_absorbed Cases.world_team_info_not_array endpoint []
           ∅ [] (start tt) (TypeError "find is not a function") eq_refl eq_refl).
Defined.

Lemma get_team_throws_on_null_row_witness :
  let r := GetTeam.resolve Samples.world_null_row (GetTeam.endpoints "TOR") (start tt) in
  let teamData := (Samples.returned (∅, []) r).1 in
  let statsData := delivered (Samples.world_null_row (world r.2) Samples.club_stats_url).1 in
  r = (Ok (teamData, []), r.2) /\
  truthy (GetTeam.field teamData "name") = true /\
  statsData = Samples.club_stats_null_row /\
  is_ok (GetTeam.handler Samples.world_null_row Samples.no_literal GetTeam.endpoints "TOR"
           (start tt)).1 = false.
Proof.
  intros r teamData statsData.
  assert (H1 : r = (Ok (teamData, []), r.2)) by (vm_compute; reflexivity).
  assert (H2 : truthy (GetTeam.field teamData "name") = true) by (vm_compute; reflexivity).
  split; [exact H1|]. split; [exact H2|]. split; [vm_compute; reflexivity|].
  apply (get_team_throws_on_null_row Samples.world_null_row Samples.no_literal
           GetTeam.endpoints "TOR" teamData [] (start tt) r.2 H1 H2);
    vm_compute; reflexivity.
Defined.

Lemma team_line_ignores_name_witness :
  let r := GetTeam.get_team Samples.world_roster_complete Samples.no_literal "TOR" (start tt) in
  r = (Ok (Samples.returned "" r), r.2) /\
  Samples.returned "" r <> GetTeam.failure_text "TOR" /\
  exists teamInfo,
    Samples.returned "" r = join "\n" teamInfo /\
    teamInfo !! 0%nat = Some "Team: undefined undefined".
Proof.
  intros r.
  assert (H1 : r = (Ok (Samples.returned "" r), r.2)) by (vm_compute; reflexivity).
  assert (H2 : Samples.returned "" r <> GetTeam.failure_text "TOR")
    by (vm_compute; discriminate).
  split; [exact H1|]. split; [exact H2|].
  destruct (team_line_ignores_name Samples.world_roster_complete Samples.no_literal
              "TOR" (Samples.returned "" r) (start tt) r.2 H1 H2)
    as (td & errs & s1 & teamInfo & Hres & Htext & Hline).
  exists teamInfo. split; [exact Htext|]. rewrite Hline.
  assert (Htd : td = Samples.team_data_after Samples.world_roster_complete 4).
  { unfold Samples.team_data_after, Samples.returned.
    change (take 4 (GetTeam.endpoints "TOR")) with (GetTeam.endpoints "TOR").
    change (GetTeam.endpoints (Str.trim (Str.toUpperCase "TOR")))
      with (GetTeam.endpoints "TOR") in Hres.
    rewrite Hres. reflexivity. }
  rewrite Htd. vm_compute. reflexivity.
Defined.

(** ** get-team: what a matched record brings *)

Section MatchedRecords.
Import GetTeam.
Variable teamCode : string.

Lemma parse_team_info_objects data r :
  parse_team_info teamCode data = Ok r ->
  r = ∅ \/ exists d c, field r "division" = JObj d /\ field r "conference" = JObj c.
Proof.
  unfold parse_team_info. intros H.
  do 2 parser_step H. parser_step H.
  - parser_step H. left. reflexivity.
  - repeat parser_step H. right. eexists _, _. split; reflexivity.
Qed.

Lemma parse_standings_objects data r :
  parse_standings teamCode data = Ok r ->
  r = ∅ \/ exists d c, field r "division" = JObj d /\ field r "conference" = JObj c.
Proof.
  unfold parse_standings. intros H.
  do 4 parser_step H. parser_step H.
  - parser_step H. left. reflexivity.
  - repeat parser_step H. right. eexists _, _. split; reflexivity.
Qed.

(** X6.  A record of the Team Info or Standings parser that is not empty
    always carries a [division] and a [conference] object, whatever the
    upstream row knows about them.  So after merging such a record,
    [teamData] is complete exactly when its [name] is truthy. *)
Theorem matched_record_completes data parsedTeam :
  parse_team_info teamCode data = Ok parsedTeam \/
  parse_standings teamCode data = Ok parsedTeam ->
  parsedTeam <> ∅ ->
  typeof (field parsedTeam "division") = "object" /\
  typeof (field parsedTeam "conference") = "object" /\
  forall teamData,
    complete (merge teamData parsedTeam) = truthy (field (merge teamData parsedTeam) "name").
Proof.
  intros Hparse Hne.
  assert (Hobj : exists d c, field parsedTeam "division" = JObj d /\
                             field parsedTeam "conference" = JObj c).
  { destruct Hparse as [H|H];
      [destruct (parse_team_info_objects data parsedTeam H) as [->|Ho]
      |destruct (parse_standings_objects data parsedTeam H) as [->|Ho]];
      (contradiction || exact Ho). }
  destruct Hobj as (d & c & Hd & Hc).
  split; [rewrite Hd; reflexivity|]. split; [rewrite Hc; reflexivity|].
  intros teamData. unfold complete.
  rewrite (field_merge teamData parsedTeam "division"), Hd.
  rewrite (field_merge teamData parsedTeam "conference"), Hc. simpl.
  unfold js_and. destruct (truthy (field (merge teamData parsedTeam) "name")) eqn:Hn.
  - reflexivity.
  - rewrite Hn. exact Hn.
Qed.
End MatchedRecords.

Lemma matched_record_completes_witness :
  let parsedTeam := Samples.value ∅ (GetTeam.parse_standings "TOR" Samples.standings_doc) in
  GetTeam.parse_standings "TOR" Samples.standings_doc = Ok parsedTeam /\
  parsedTeam <> ∅ /\
  GetTeam.complete (GetTeam.merge ∅ parsedTeam) = true.
Proof.
  intros parsedTeam.
  assert (Hp : GetTeam.parse_standings "TOR" Samples.standings_doc = Ok parsedTeam)
    by (vm_compute; reflexivity).
  assert (Hne : parsedTeam <> ∅).
  { intros He. apply (f_equal (fun m => m !! "abbrev")) in He.
    vm_compute in He. discriminate. }
  split; [exact Hp|]. split; [exact Hne|].
  rewrite (proj2 (proj2 (matched_record_completes "TOR" Samples.standings_doc parsedTeam
                           (or_intror Hp) Hne)) ∅).
  vm_compute. reflexivity.
Defined.

(** ** get-player: what the parsers and the lookup guarantee *)

Lemma spaced_not_empty (a b : string) : negb (String.eqb (a +:+ " " +:+ b) "") = true.
Proof. destruct a; reflexivity. Qed.

Lemma spaced_left_not_empty (a b : string) :
  negb (String.eqb ((a +:+ " ") +:+ b) "") = true.
Proof. destruct a; reflexivity. Qed.

Lemma identified_by_full_name entries (s : string) :
  assoc "fullName" entries = JStr s ->
  negb (String.eqb s "") = true ->
  GetPlayer.identified (JObj entries) = true.
Proof.
  intros Hf Hs. unfold GetPlayer.identified, js_or.
  cbn [truthy prop andb]. rewrite Hf. cbn [truthy]. rewrite Hs. exact Hs.
Qed.

(** X7.  A record of the Stats API parser is empty or identifies the
    player: its [fullName] is the first and the last name of the first
    row as they convert to text, joined by a space, which is never an
    empty string even when the row has neither name.  The empty record
    is not accepted by the endpoint loop. *)
Theorem stats_info_record_is_identified (data parsedPlayer : JsVal) :
  GetPlayer.parse_stats_info data = Ok parsedPlayer ->
  GetPlayer.identified (JObj []) = false /\
  (parsedPlayer = JObj [] \/
   exists player,
     player = first (prop data "data") /\
     prop parsedPlayer "fullName" =
       JStr ((to_string (prop player "firstName") +:+ " ") +:+
             to_string (prop player "lastName")) /\
     GetPlayer.identified parsedPlayer = true).
Proof.
  intros H. split; [reflexivity|].
  unfold GetPlayer.parse_stats_info in H.
  destruct (truthy data) eqn:Hd; cbn [negb] in H;
    [|injection H as <-; left; reflexivity].
  rewrite (get_truthy data "data" Hd) in H. cbn [mbind Res_bind] in H.
  destruct (truthy (prop data "data")) eqn:Hdd; cbn [negb] in H;
    [|injection H as <-; left; reflexivity].
  destruct (strict_eq (prop (prop data "data") "length") (JNum 0));
    [injection H as <-; left; reflexivity|].
  unfold get_first in H. rewrite (truthy_not_nullish _ Hdd) in H.
  cbn [mbind Res_bind] in H.
  set (player := first (prop data "data")) in *.
  destruct (is_nullish player) eqn:Hn.
  - unfold get in H. rewrite Hn in H. discriminate.
  - assert (Hget : forall k, get player k = Ok (prop player k))
      by (intros k; unfold get; rewrite Hn; reflexivity).
    rewrite !Hget in H. cbn [mbind Res_bind] in H.
    right. exists player. split; [reflexivity|].
    unfold or_else in H.
    destruct (truthy (prop player "playerId")); cbn [mbind Res_bind mret Res_ret] in H;
      injection H as <-; (split; [reflexivity|]);
      (eapply identified_by_full_name; [reflexivity|apply spaced_left_not_empty]).
Qed.

Lemma stats_info_record_is_identified_witness :
  let data := JObj [("data", JArr [JObj [("teamId", JNum 22)]])] in
  let parsedPlayer := Samples.value JUndef (GetPlayer.parse_stats_info data) in
  GetPlayer.parse_stats_info data = Ok parsedPlayer /\
  prop parsedPlayer "fullName" = JStr "undefined undefined" /\
  GetPlayer.identified parsedPlayer = true.
Proof.
  intros data parsedPlayer.
  assert (Hp : GetPlayer.parse_stats_info data = Ok parsedPlayer) by reflexivity.
  split; [exact Hp|].
  destruct (stats_info_record_is_identified data parsedPlayer Hp) as [_ [He|(pl & -> & Hf & Hi)]].
  - discriminate.
  - split; [rewrite Hf; reflexivity|exact Hi].
Defined.

Section TeamNameFacts.
Import GetPlayer.
Context {W : Type}.
Variable fetch : W -> string -> FetchOutcome * W.

(** A property of the loop state that every iteration preserves holds at
    the end of the loop. *)
Lemma for_of_invariant {A S} (P : S -> Prop) (l : list A)
    (body : A -> S -> M W (Flow * S)) st0 st (s s' : St W) :
  (forall x st1 (s1 : St W) flow st2 s2,
     body x st1 s1 = (Ok (flow, st2), s2) -> P st1 -> P st2) ->
  P st0 -> for_of l body st0 s = (Ok st, s') -> P st.
Proof.
  intros Hbody. revert st0 s. induction l as [|x l IH]; intros st0 s HP Hrun.
  - simpl in Hrun. injection Hrun as <- _. exact HP.
  - rewrite for_of_cons in Hrun.
    destruct (body x st0 s) as [[[[|] st1]|e] s1] eqn:Hb; [| |discriminate].
    + eapply IH; [|exact Hrun]. eapply Hbody; eauto.
    + injection Hrun as <- _. eapply Hbody; eauto.
Qed.

Lemma truthy_js_or_default a (d : string) :
  negb (String.eqb d "") = true -> truthy (js_or a (JStr d)) = true.
Proof. intros Hd. unfold js_or. destruct (truthy a) eqn:Ha; [exact Ha|exact Hd]. Qed.

Lemma scan_teams_named teamId teams loc :
  named loc -> named (scan_teams teamId teams loc).1.
Proof.
  intros Hloc. induction teams as [|t teams IH]; simpl; [exact Hloc|].
  destruct (get t "teamId") as [tid|e]; [|exact Hloc].
  destruct (strict_eq tid teamId); [|exact IH].
  apply truthy_js_or_default. reflexivity.
Qed.

Lemma scan_divisions_named teamId divisions loc :
  named loc -> named (scan_divisions teamId divisions loc).1.
Proof.
  revert loc. induction divisions as [|d ds IH]; intros loc Hloc; simpl; [exact Hloc|].
  destruct (_ ≫= _) as [teams|e]; [|exact Hloc].
  pose proof (scan_teams_named teamId teams loc Hloc) as Hs.
  destruct (scan_teams teamId teams loc) as [loc' [e|]]; [exact Hs|].
  apply IH. exact Hs.
Qed.

Lemma read_teams_named teamId teamsData loc :
  named loc -> named (read_teams teamId teamsData loc).1.
Proof.
  intros Hloc. unfold read_teams.
  destruct (truthy (opt_get (prop teamsData "standings") "divisionStandings")).
  - destruct (iterate _) as [divisions|e]; [|exact Hloc].
    apply scan_divisions_named, Hloc.
  - destruct (truthy (prop teamsData "data")); [|exact Hloc].
    destruct (array_find _ _) as [t|e]; [|exact Hloc].
    destruct (truthy t); [|exact Hloc].
    apply truthy_js_or_default. reflexivity.
Qed.

Lemma roster_name_truthy teamData teamAbbrev :
  truthy teamAbbrev = true -> truthy (roster_name teamData teamAbbrev) = true.
Proof.
  intros Ha. unfold roster_name. destruct (truthy (js_or _ _)); [|exact Ha].
  apply spaced_not_empty.
Qed.

Lemma lookup_team_named teamId (s : St W) tm s' :
  lookup_team fetch teamId s = (Ok tm, s') -> named tm.
Proof.
  unfold lookup_team, mbind, M_bind.
  destruct (for_of teamUrls (lookup_step fetch teamId) (unknown_team, None) s)
    as [[[loc err]|e] s1] eqn:Hloop; [|discriminate].
  assert (Hloc : named loc).
  { refine (for_of_invariant (fun st : Scan => named st.1) _ _ _ _ _ _ _ _ Hloop);
      [|reflexivity].
    intros url [l0 e0] s0 flow [l1 e1] s2 Hstep Hl0.
    rewrite lookup_step_spec in Hstep. cbv zeta in Hstep.
    destruct (truthy (delivered _)).
    - pose proof (read_teams_named teamId (delivered (fetch (world s0) url).1) l0 Hl0) as Hr.
      destruct (read_teams _ _ _) as [l' [e'|]]; injection Hstep as _ <- _ _; exact Hr.
    - injection Hstep as _ <- _ _. exact Hl0. }
  destruct err as [e|]; simpl.
  - intros H. injection H as <- _. exact Hloc.
  - destruct (truthy (teamAbbrev loc)) eqn:Hab; simpl.
    + destruct (is_unknown loc).
      * rewrite makeNHLRequest_spec. destruct (truthy (delivered _)).
        -- intros H. injection H as <- _. apply roster_name_truthy, Hab.
        -- intros H. injection H as <- _. exact Hloc.
      * intros H. injection H as <- _. exact Hloc.
    + intros H. injection H as <- _. exact Hloc.
Qed.

(** X8.  Whenever the handler resolves a player, the team name it is
    about to print is truthy: it is never empty, null or undefined,
    whatever the lookup documents contain and whether or not the lookup
    threw. *)
Theorem resolved_team_name_is_truthy playerId (s s' : St W) resolved :
  get_player fetch playerId s = (Ok (inr resolved), s') ->
  truthy (teamName (team resolved)) = true.
Proof.
  unfold get_player, mbind, M_bind.
  destruct (resolve fetch (endpoints playerId) s) as [[[p errs]|e] s1]; [|discriminate].
  destruct (truthy p); simpl; [|discriminate].
  rewrite makeNHLRequest_spec.
  destruct (truthy (prop p "teamId")).
  - destruct (lookup_team fetch (prop p "teamId") _) as [[tm|e] s2] eqn:Hlk; [|discriminate].
    intros H. injection H as <- _. simpl. exact (lookup_team_named _ _ _ _ Hlk).
  - intros H. injection H as <- _. reflexivity.
Qed.
End TeamNameFacts.

Lemma resolved_team_name_is_truthy_witness :
  let r := GetPlayer.get_player Cases.world_player 8478402 (start tt) in
  let resolved := GetPlayer.mkResolved Cases.landing_doc JNull
                    (GetPlayer.mkTeam (JStr "Edmonton Oilers") (JStr "EDM")) in
  r = (Ok (inr resolved), r.2) /\
  truthy (GetPlayer.teamName (GetPlayer.team resolved)) = true.
Proof.
  intros r resolved.
  assert (Hr : r = (Ok (inr resolved), r.2)) by (vm_compute; reflexivity).
  split; [exact Hr|].
  exact (resolved_team_name_is_truthy Cases.world_player 8478402 (start tt) r.2 resolved Hr).
Defined.

(** ** get-current-standings: nothing is lost, ties keep their order *)

Section StandingsMore.
Import Standings.

Lemma push_team_teams d t m :
  concat (push_team d t m).*2 ≡ₚ concat m.*2 ++ [t].
Proof.
  induction m as [|[k ts] m IH]; csimpl; [reflexivity|].
  destruct (String.eqb k d); csimpl.
  - rewrite <- !app_assoc. apply Permutation_app_head. apply Permutation_app_comm.
  - rewrite IH, app_assoc. reflexivity.
Qed.

Lemma group_fold_teams rows m :
  concat (fold_left (fun divisionMap team => push_team (division_of team) team divisionMap)
                    rows m).*2 ≡ₚ concat m.*2 ++ rows.
Proof.
  revert m. induction rows as [|t rows IH]; intros m; simpl.
  - rewrite app_nil_r. reflexivity.
  - rewrite IH, push_team_teams, <- app_assoc. reflexivity.
Qed.

Lemma format_lines_length (groups : list (string * list TeamRow)) :
  length (concat (map format_division groups)) =
  (3 * length groups + length (concat groups.*2))%nat.
Proof.
  induction groups as [|[d ts] groups IH]; csimpl; [reflexivity|].
  rewrite !length_app, length_map, IH.
  rewrite (Permutation_length (sort_by_points_perm ts)). simpl. lia.
Qed.

(** X9.  Grouping loses and invents nothing: the division names of
    [divisionMap] are distinct, the teams of all divisions together are
    a rearrangement of the [standings] array, and so are the teams as
    printed, each division sorted; the answer has three header lines per
    division and one line per team. *)
Theorem standings_keep_every_team (rows : list TeamRow) :
  NoDup (group_by_division rows).*1 /\
  concat (group_by_division rows).*2 ≡ₚ rows /\
  concat (map (fun entry => sort_by_points entry.2) (group_by_division rows)) ≡ₚ rows /\
  length (concat (map format_division (group_by_division rows))) =
    (3 * length (group_by_division rows) + length rows)%nat.
Proof.
  assert (Hperm : concat (group_by_division rows).*2 ≡ₚ rows)
    by (unfold group_by_division; rewrite group_fold_teams; reflexivity).
  split; [|split; [exact Hperm|split]].
  - destruct (group_fold rows []) as [Hnd _]. apply Hnd. apply NoDup_nil_2.
  - rewrite <- Hperm at 2.
    generalize (group_by_division rows). intros groups.
    induction groups as [|[d ts] groups IH]; csimpl; [reflexivity|].
    rewrite IH, sort_by_points_perm. reflexivity.
  - rewrite format_lines_length, (Permutation_length Hperm). reflexivity.
Qed.

Lemma filter_insert_team (p : Z) team sorted :
  filter (fun t => num_or_zero (points t) = p) (insert_team team sorted) =
  filter (fun t => num_or_zero (points t) = p) (team :: sorted).
Proof.
  induction sorted as [|u rest IH]; simpl; [reflexivity|].
  unfold before. destruct (Z.leb_spec (num_or_zero (points u)) (num_or_zero (points team)));
    [reflexivity|].
  rewrite (filter_cons _ u), IH, !filter_cons.
  destruct (decide (num_or_zero (points team) = p)) as [Ht|Ht];
    destruct (decide (num_or_zero (points u) = p)) as [Hu|Hu]; try reflexivity.
  lia.
Qed.

(** X10.  The sort is stable: the teams with a given number of points
    (absent points counting as 0) appear in the sorted array in the order
    they have in the document. *)
Theorem sort_by_points_is_stable (teams : list TeamRow) (p : Z) :
  filter (fun t => num_or_zero (points t) = p) (sort_by_points teams) =
  filter (fun t => num_or_zero (points t) = p) teams.
Proof.
  induction teams as [|t teams IH]; [reflexivity|].
  simpl. rewrite filter_insert_team, !filter_cons, IH. reflexivity.
Qed.
End StandingsMore.

(** ** get-skater-leaders: the answer *)

Section LeadersAnswerFacts.
Import LeadersAnswer.
Variable category : string.

Lemma get_not_nullish v k : is_nullish v = false -> get v k = Ok (prop v k).
Proof. intros H. unfold get. rewrite H. reflexivity. Qed.

Lemma own_stat_spec leader name :
  is_nullish leader = false ->
  own_stat category leader name =
  Ok (String.eqb category name && defined (prop leader name)).
Proof.
  intros Hn. unfold own_stat. destruct (String.eqb category name); [|reflexivity].
  rewrite (get_not_nullish leader name Hn). reflexivity.
Qed.

(** X14.  The value column needs no branch by category: for every leader
    the value is [leader.value] if that is not undefined, else the
    property named by the category if that is not undefined, else "0",
    each passed through safeString. *)
Theorem leader_value_is_generic (leader : JsVal) :
  leader_value category leader = generic_value category leader.
Proof.
  unfold leader_value, generic_value.
  destruct (is_nullish leader) eqn:Hn.
  - unfold get. rewrite Hn. reflexivity.
  - rewrite !(own_stat_spec leader) by exact Hn.
    rewrite !(get_not_nullish leader) by exact Hn.
    cbn [mbind Res_bind].
    destruct (defined (prop leader "value")); [reflexivity|].
    destruct (String.eqb_spec category "points") as [->|_]; cbn [andb].
    { destruct (defined (prop leader "points")); reflexivity. }
    destruct (String.eqb_spec category "goals") as [->|_]; cbn [andb].
    { destruct (defined (prop leader "goals")); reflexivity. }
    destruct (String.eqb_spec category "assists") as [->|_]; cbn [andb].
    { destruct (defined (prop leader "assists")); reflexivity. }
    destruct (String.eqb_spec category "plusMinus") as [->|_]; cbn [andb].
    { destruct (defined (prop leader "plusMinus")); reflexivity. }
    reflexivity.
Qed.

Lemma leader_row_null leader index :
  is_nullish leader = true -> is_ok (leader_row category leader index) = false.
Proof. intros H. unfold leader_row, leader_name, get. rewrite H. reflexivity. Qed.

Lemma rows_from_null index elems :
  existsb is_nullish elems = true -> is_ok (rows_from category index elems) = false.
Proof.
  revert index. induction elems as [|x elems IH]; intros index; [discriminate|].
  cbn [existsb rows_from]. intros H.
  destruct (is_nullish x) eqn:Hx.
  - pose proof (leader_row_null x index Hx) as Hrow.
    destruct (leader_row category x index); [discriminate|reflexivity].
  - destruct (leader_row category x index); [|reflexivity].
    cbn [mbind Res_bind]. specialize (IH (S index) H).
    destruct (rows_from category (S index) elems); [discriminate|reflexivity].
Qed.

Lemma leader_rows_null leaders :
  match leaders with JArr elems => existsb is_nullish elems | _ => true end = true ->
  is_ok (leader_rows category leaders) = false.
Proof. destruct leaders; try reflexivity. apply rows_from_null. Qed.



End LeadersAnswerFacts.


Section LeadersHandlerFacts.
Import LeadersAnswer.
Context {W : Type}.
Variable fetch : W -> string -> FetchOutcome * W.
Variable positive_literal : string -> bool.

Lemma gt_zero_not_zero v :
  gt_zero positive_literal v = true -> strict_eq v (JNum 0) = false.
Proof. destruct v; simpl; try reflexivity; try discriminate. lia. Qed.


(** X13.  A null leader makes the handler throw: whenever the URL loop
    ends with a result whose [leaders] is not an array, or is an array
    with an element that is null or undefined, the handler throws
    instead of answering; the loop accepts such a result, since it tests
    only the length. *)
Theorem leader_rows_throw_on_null_elements (category : string) (limit : Z)
    e errors (s s' : St W) :
  SkaterLeaders.select_leaders fetch positive_literal
    (SkaterLeaders.urls category limit) s = (Ok (Some e, errors), s') ->
  match SkaterLeaders.leaders e with
  | JArr elems => existsb is_nullish elems
  | _ => true
  end = true ->
  is_ok (get_skater_leaders fetch positive_literal category limit s).1 = false.
Proof.
  intros Hrun Hbad.
  destruct (leaders_loop_spec fetch positive_literal
              (SkaterLeaders.urls category limit) [] s)
    as (result & errors1 & s1 & Hspec & Hres).
  unfold SkaterLeaders.select_leaders in Hrun. rewrite Hrun in Hspec.
  injection Hspec as <- _ _.
  destruct Hres as (before & source & after & errors0 & s0 & _ & _ & _ & _ & Hhas & _).
  simpl in Hhas. apply andb_true_iff in Hhas. destruct Hhas as [Ht Hlen].
  unfold get_skater_leaders, SkaterLeaders.select_leaders.
  unfold mbind at 1. unfold M_bind. rewrite Hrun. unfold lift. cbn [fst].
  unfold answer. rewrite (get_truthy _ "length" Ht). cbn [mbind Res_bind].
  rewrite (gt_zero_not_zero _ Hlen).
  pose proof (leader_rows_null category _ Hbad) as Hthrow.
  destruct (leader_rows category (SkaterLeaders.leaders e)); [discriminate|reflexivity].
Qed.
End LeadersHandlerFacts.

(** The web API lists one leader in goals, and it is [null]: the loop
    accepts the list and the handler throws. *)
Lemma leader_rows_throw_on_null_elements_witness :
  let e := SkaterLeaders.mkExtracted (JArr [JNull]) (JStr "goals") (JStr "current") in
  let r := SkaterLeaders.select_leaders Cases.world_null_leader Samples.no_literal
             (SkaterLeaders.urls "goals" 10) (start tt) in
  r = (Ok (Some e, []), r.2) /\
  is_ok (LeadersAnswer.get_skater_leaders Cases.world_null_leader Samples.no_literal
           "goals" 10 (start tt)).1 = false.
Proof.
  intros e r.
  assert (H1 : r = (Ok (Some e, []), r.2)) by (vm_compute; reflexivity).
  split; [exact H1|].
  apply (leader_rows_throw_on_null_elements Cases.world_null_leader Samples.no_literal
           "goals" 10 e [] (start tt) r.2 H1).
  reflexivity.
Defined.

(** ** get-player: the answer *)

Section PlayerAnswerFacts.
Import PlayerAnswer.
Context {W : Type}.
Variable fetch : W -> string -> FetchOutcome * W.

Lemma to_text_ok v : is_ok (to_text v) = convertible v.
Proof. unfold to_text. destruct (convertible v); reflexivity. Qed.

(** Where the conversion returns, it returns what [to_string] gives. *)
Lemma to_text_value v text : to_text v = Ok text -> text = to_string v.
Proof. unfold to_text. destruct (convertible v); congruence. Qed.

Lemma is_ok_bind {A B} (m : Res A) (f : A -> Res B) :
  is_ok (m ≫= f) = match m with Ok a => is_ok (f a) | Throw _ => false end.
Proof. destruct m; reflexivity. Qed.

Lemma base_lines_spec playerId playerData teamName :
  truthy playerData = true ->
  is_ok (base_lines playerId playerData teamName) = convertible teamName /\
  forall lines, base_lines playerId playerData teamName = Ok lines ->
    exists name rest, lines = ("Name: " +:+ name) :: rest.
Proof.
  intros Hp. unfold base_lines, player_name, birth_place, to_text.
  rewrite !(get_truthy playerData _ Hp). cbn [mbind Res_bind].
  destruct (LeadersAnswer.is_string (prop playerData "fullName")).
  - cbn [mbind Res_bind mret Res_ret].
    destruct (convertible teamName); cbn [mbind Res_bind mret Res_ret is_ok].
    + split; [reflexivity|]. intros lines H. injection H as <-. eauto.
    + split; [reflexivity|discriminate].
  - cbn [mbind Res_bind].
    destruct (_ && _); cbn [mbind Res_bind mret Res_ret];
      (destruct (convertible teamName); cbn [mbind Res_bind mret Res_ret is_ok];
        [split; [reflexivity|]; intros lines H; injection H as <-; eauto
        |split; [reflexivity|discriminate]]).
Qed.

Lemma stat_line_spec label stats k :
  truthy stats = true ->
  is_ok (stat_line label stats k) = convertible (js_or (prop stats k) (JNum 0)).
Proof.
  intros H. unfold stat_line. rewrite (get_truthy _ _ H). cbn [mbind Res_bind].
  rewrite is_ok_bind, <- to_text_ok. destruct (to_text _); reflexivity.
Qed.

Lemma is_ok_stat_line_bind {B} label stats k (f : string -> Res B) :
  truthy stats = true ->
  is_ok (stat_line label stats k ≫= f) = true ->
  convertible (js_or (prop stats k) (JNum 0)) = true /\
  exists l, stat_line label stats k = Ok l /\ is_ok (f l) = true.
Proof.
  intros H Hok. rewrite <- (stat_line_spec label stats k H).
  destruct (stat_line label stats k) as [l|e]; [|discriminate].
  split; [reflexivity|]. eauto.
Qed.

(** Steps over the first statistic of a block. *)
Ltac stat_step H :=
  match goal with
  | |- is_ok (stat_line ?label ?stats ?k ≫= _) = _ =>
      let Hc := fresh "Hc" in
      pose proof (stat_line_spec label stats k H) as Hc;
      rewrite is_ok_bind;
      destruct (stat_line label stats k);
      cbn [is_ok] in Hc; rewrite <- Hc; cbn [andb]; clear Hc; [|reflexivity]
  end.

(** The statistics the goalie block prints, and those of the skater
    block. *)
Lemma goalie_lines_spec stats :
  truthy stats = true ->
  is_ok (goalie_lines stats) =
  forallb (fun k => convertible (js_or (prop stats k) (JNum 0)))
          ["gamesPlayed"; "wins"; "losses"; "otLosses"; "savePctg";
           "goalsAgainstAverage"; "shutouts"].
Proof.
  intros H. unfold goalie_lines. cbn [forallb].
  repeat stat_step H.
  reflexivity.
Qed.

Lemma skater_lines_spec stats :
  truthy stats = true ->
  is_ok (skater_lines stats) =
  forallb (fun k => convertible (js_or (prop stats k) (JNum 0)))
          ["gamesPlayed"; "goals"; "assists"; "points"; "plusMinus"; "pim";
           "powerPlayGoals"; "gameWinningGoals"; "shots"; "shootingPctg"].
Proof.
  intros H. unfold skater_lines. cbn [forallb].
  repeat stat_step H.
  rewrite !(get_truthy stats _ H). cbn [mbind Res_bind]. unfold js_or, to_text.
  destruct (truthy (prop stats "shootingPctg")); cbn [mbind Res_bind convertible];
    [destruct (convertible (prop stats "shootingPctg"))|]; reflexivity.
Qed.

(** X15.  Formatting a resolved player throws only in a string
    conversion: it returns exactly when the team name can be converted
    to text and, if the game log carries [stats], so can each statistic
    of the goalie or skater block that is printed (a falsy statistic is
    printed as 0); no property access of this part throws.  What it
    returns starts with the "Name: " line.  The handler answers the
    failure text when the endpoint loop ended without a truthy player
    record, without throwing, and formats the resolved player
    otherwise. *)
Theorem get_player_throws_only_in_conversion (playerId : Z) (s : St W) :
  (forall resolved,
     truthy (GetPlayer.playerData resolved) = true ->
     let playerData := GetPlayer.playerData resolved in
     let statsData := GetPlayer.statsData resolved in
     let stats := prop statsData "stats" in
     is_ok (player_info playerId resolved) =
       convertible (GetPlayer.teamName (GetPlayer.team resolved)) &&
       (if truthy (js_and statsData stats) then
          forallb (fun k => convertible (js_or (prop stats k) (JNum 0)))
                  (if eq_str (prop playerData "position") "G"
                   then ["gamesPlayed"; "wins"; "losses"; "otLosses"; "savePctg";
                         "goalsAgainstAverage"; "shutouts"]
                   else ["gamesPlayed"; "goals"; "assists"; "points"; "plusMinus"; "pim";
                         "powerPlayGoals"; "gameWinningGoals"; "shots"; "shootingPctg"])
        else true) /\
     forall lines, player_info playerId resolved = Ok lines ->
       exists name rest, lines = ("Name: " +:+ name) :: rest) /\
  (exists playerData errorMessages s1 r s',
     GetPlayer.resolve fetch (GetPlayer.endpoints playerId) s =
       (Ok (playerData, errorMessages), s1) /\
     GetPlayer.get_player fetch playerId s = (Ok r, s') /\
     match r with
     | inl text =>
         truthy playerData = false /\
         text = GetPlayer.failure_text playerId /\
         get_player_text fetch playerId s = (Ok text, s')
     | inr resolved =>
         truthy playerData = true /\
         GetPlayer.playerData resolved = playerData /\
         get_player_text fetch playerId s =
           (playerInfo ← player_info playerId resolved; mret (join "\n" playerInfo), s')
     end).
Proof.
  split.
  - intros resolved Hp playerData statsData stats.
    destruct (base_lines_spec playerId playerData
                (GetPlayer.teamName (GetPlayer.team resolved)) Hp) as [Hbase Hname].
    unfold player_info. cbv zeta. fold playerData statsData.
    rewrite <- Hbase.
    destruct (base_lines playerId playerData _) as [lines|e];
      [|split; [reflexivity|discriminate]].
    cbn [mbind Res_bind is_ok andb].
    destruct (Hname lines eq_refl) as (name & rest & ->).
    unfold and_then, js_and. fold stats.
    destruct (truthy statsData) eqn:Hs.
    + rewrite !(get_truthy statsData "stats" Hs). cbn [mbind Res_bind]. fold stats.
      destruct (truthy stats) eqn:Hst.
      * rewrite (get_truthy playerData _ Hp). cbn [mbind Res_bind].
        destruct (eq_str (prop playerData "position") "G").
        -- rewrite <- (goalie_lines_spec stats Hst).
           destruct (goalie_lines stats) as [more|e]; cbn [mbind Res_bind mret Res_ret is_ok];
             (split; [reflexivity|]); [|discriminate].
           intros l H. injection H as <-. simpl. eauto.
        -- rewrite <- (skater_lines_spec stats Hst).
           destruct (skater_lines stats) as [more|e]; cbn [mbind Res_bind mret Res_ret is_ok];
             (split; [reflexivity|]); [|discriminate].
           intros l H. injection H as <-. simpl. eauto.
      * split; [reflexivity|]. intros l H. injection H as <-. eauto.
    + cbn [mbind Res_bind]. rewrite Hs.
      split; [reflexivity|]. intros l H. injection H as <-. eauto.
  - unfold GetPlayer.resolve.
    destruct (player_loop_spec fetch (GetPlayer.endpoints playerId) JNull [] s)
      as (p & e & s1 & n & Hl & _).
    exists p, e, s1.
    unfold get_player_text.
    assert (Hrun : exists r s',
      GetPlayer.get_player fetch playerId s = (Ok r, s') /\
      match r with
      | inl text => truthy p = false /\ text = GetPlayer.failure_text playerId
      | inr resolved => truthy p = true /\ GetPlayer.playerData resolved = p
      end).
    { unfold GetPlayer.get_player, GetPlayer.resolve, mbind, M_bind. rewrite Hl.
      destruct (truthy p) eqn:Hp; cbn [negb].
      - rewrite makeNHLRequest_spec.
        destruct (truthy (prop p "teamId")).
        + destruct (lookup_team_spec fetch (prop p "teamId")
                      (requested s1 (GetPlayer.stats_url playerId)
                         (fetch (world s1) (GetPlayer.stats_url playerId)).1
                         (fetch (world s1) (GetPlayer.stats_url playerId)).2))
            as (st & s2 & tm & s' & _ & Hlk & _).
          rewrite Hlk. eexists _, _. split; [reflexivity|]. split; reflexivity.
        + eexists _, _. split; [reflexivity|]. split; reflexivity.
      - eexists _, _. split; [reflexivity|]. split; reflexivity. }
    destruct Hrun as (r & s' & Hget & Hr).
    exists r, s'. split; [exact Hl|]. split; [exact Hget|].
    destruct r as [text|resolved].
    + destruct Hr as [Hp ->]. split; [exact Hp|]. split; [reflexivity|].
      unfold mbind, M_bind. rewrite Hget. reflexivity.
    + destruct Hr as [Hp Hpd]. split; [exact Hp|]. split; [exact Hpd|].
      unfold mbind, M_bind, lift. rewrite Hget.
      destruct (player_info playerId resolved); reflexivity.
Qed.
End PlayerAnswerFacts.

(** The standings name the player's team with an object that has a
    [toString] key of its own: the player is resolved, the team name is
    that object, and the handler throws at the "Team: " line. *)
Lemma get_player_throws_only_in_conversion_witness :
  let resolved := GetPlayer.mkResolved Cases.landing_doc JNull
                    (GetPlayer.mkTeam (JObj [("toString", JNum 1)]) (JStr "")) in
  let r := GetPlayer.get_player Cases.world_player_unprintable 8478402 (start tt) in
  r = (Ok (inr resolved), r.2) /\
  is_ok (PlayerAnswer.player_info 8478402 resolved) = false /\
  (PlayerAnswer.get_player_text Cases.world_player_unprintable 8478402 (start tt)).1 =
    Throw (TypeError "Cannot convert object to primitive value").
Proof.
  intros resolved r.
  assert (H1 : r = (Ok (inr resolved), r.2)) by (vm_compute; reflexivity).
  split; [exact H1|]. split; [|vm_compute; reflexivity].
  rewrite (proj1 (proj1 (get_player_throws_only_in_conversion
                           Cases.world_player_unprintable 8478402 (start tt))
                        resolved eq_refl)).
  reflexivity.
Defined.

(** ** get-team in the later revision *)

Section LaterRevisionFacts.
Import GetTeam.
Context {W : Type}.
Variable fetch : W -> string -> FetchOutcome * W.
Variable teamCode : string.

Lemma or_else_default_truthy v (d : string) r :
  or_else v (Ok (JStr d)) = Ok r ->
  negb (String.eqb d "") = true -> truthy r = true.
Proof.
  unfold or_else. destruct (truthy v) eqn:Hv; intros H Hd; injection H as <-;
    [exact Hv|exact Hd].
Qed.

Lemma or_nested_or_truthy m k sub k' (d : string) r :
  GetTeamLater.or_nested_or m k sub k' d = Ok r ->
  negb (String.eqb d "") = true -> truthy r = true.
Proof.
  unfold GetTeamLater.or_nested_or. intros H Hd.
  apply bind_Ok in H as (v & _ & H). exact (or_else_default_truthy v d r H Hd).
Qed.

Lemma truthy_prop v k : truthy (prop v k) = true -> truthy v = true.
Proof.
  destruct v as [| |b|n|s|l|o]; simpl; try discriminate; try reflexivity.
  destruct s; [|reflexivity]. destruct (String.eqb k "length"); discriminate.
Qed.

(** What a record of the later parsers holds unless it is empty. *)
Lemma later_team_info_record data r :
  GetTeamLater.parse_team_info teamCode data = Ok r ->
  r = ∅ \/
  (truthy (prop (field r "division") "name") = true /\
   truthy (prop (field r "conference") "name") = true /\
   field r "abbrev" = JStr teamCode).
Proof.
  unfold GetTeamLater.parse_team_info. intros H.
  apply bind_Ok in H as (teams & _ & H).
  apply bind_Ok in H as (m & _ & H).
  destruct (negb (truthy m)); [injection H as <-; left; reflexivity|].
  apply bind_Ok in H as (teamId & _ & H).
  apply bind_Ok in H as (nm & _ & H).
  apply bind_Ok in H as (locationName & _ & H).
  apply bind_Ok in H as (teamName & _ & H).
  apply bind_Ok in H as (divName & Hdn & H).
  apply bind_Ok in H as (divShort & _ & H).
  apply bind_Ok in H as (confName & Hcn & H).
  apply bind_Ok in H as (confShort & _ & H).
  injection H as <-. right.
  apply or_nested_or_truthy in Hdn; [|reflexivity].
  apply or_nested_or_truthy in Hcn; [|reflexivity].
  split; [exact Hdn|]. split; [exact Hcn|reflexivity].
Qed.

Lemma later_standings_record data r :
  GetTeamLater.parse_standings teamCode data = Ok r ->
  r = ∅ \/
  (truthy (prop (field r "division") "name") = true /\
   truthy (prop (field r "conference") "name") = true /\
   field r "abbrev" = JStr teamCode).
Proof.
  unfold GetTeamLater.parse_standings. intros H.
  apply bind_Ok in H as (standings & _ & H).
  apply bind_Ok in H as (teams & _ & H).
  apply bind_Ok in H as (foundTeam & _ & H).
  destruct (negb (truthy foundTeam)); [injection H as <-; left; reflexivity|].
  apply bind_Ok in H as (teamId & _ & H).
  apply bind_Ok in H as (nm & _ & H).
  apply bind_Ok in H as (locationName & _ & H).
  apply bind_Ok in H as (teamName & _ & H).
  apply bind_Ok in H as (divName & Hdn & H).
  apply bind_Ok in H as (divShort & _ & H).
  apply bind_Ok in H as (confName & Hcn & H).
  apply bind_Ok in H as (confShort & _ & H).
  apply bind_Ok in H as (wins & _ & H).
  apply bind_Ok in H as (losses & _ & H).
  apply bind_Ok in H as (otLosses & _ & H).
  apply bind_Ok in H as (points & _ & H).
  injection H as <-. right.
  apply bind_Ok in Hdn as (n & _ & Hdn).
  apply or_else_default_truthy in Hdn; [|reflexivity].
  apply bind_Ok in Hcn as (c & _ & Hcn). unfold or_else in Hcn.
  assert (Hc : truthy confName = true).
  { destruct (truthy c) eqn:Htc; [injection Hcn as <-; exact Htc|].
    repeat parser_step Hcn; reflexivity. }
  split; [exact Hdn|]. split; [exact Hc|reflexivity].
Qed.

(** X16.  In the later revision a resolved name comes with everything the
    header prints: whenever the endpoint loop ends with a truthy [name],
    [teamData] is complete, the names of its division and conference are
    truthy, so the "Not available" defaults of the header are not used,
    and its abbreviation is the requested team code. *)
Theorem later_named_team_is_complete teamData errorMessages (s s' : St W) :
  resolve fetch (GetTeamLater.endpoints teamCode) s = (Ok (teamData, errorMessages), s') ->
  truthy (field teamData "name") = true ->
  complete teamData = true /\
  truthy (prop (field teamData "division") "name") = true /\
  truthy (prop (field teamData "conference") "name") = true /\
  field teamData "abbrev" = JStr teamCode /\
  header_lines teamCode teamData !! 2%nat =
    Some ("Division: " +:+ to_string (prop (field teamData "division") "name")) /\
  header_lines teamCode teamData !! 3%nat =
    Some ("Conference: " +:+ to_string (prop (field teamData "conference") "name")).
Proof.
  intros Hrun Hname.
  pose (P := fun td : gmap string JsVal =>
    td = ∅ \/
    (truthy (prop (field td "division") "name") = true /\
     truthy (prop (field td "conference") "name") = true /\
     field td "abbrev" = JStr teamCode)).
  assert (HP : P teamData).
  { unfold resolve in Hrun.
    apply (loop_invariant fetch P (GetTeamLater.endpoints teamCode) ∅ []
             teamData errorMessages s s'); [|left; reflexivity|exact Hrun].
    intros endpoint data parsedTeam td Hin Hparse Htd.
    assert (Hrec : P parsedTeam).
    { unfold GetTeamLater.endpoints in Hin.
      apply elem_of_cons in Hin as [->|Hin];
        [exact (later_team_info_record data parsedTeam Hparse)|].
      apply elem_of_cons in Hin as [->|Hin];
        [exact (later_standings_record data parsedTeam Hparse)|].
      apply elem_of_nil in Hin. contradiction. }
    destruct Hrec as [->|(Hd & Hc & Ha)]; [rewrite merge_empty_r; exact Htd|].
    right. rewrite !field_merge.
    assert (Hdn : is_nullish (field parsedTeam "division") = false).
    { destruct (field parsedTeam "division"); try reflexivity; discriminate. }
    assert (Hcn : is_nullish (field parsedTeam "conference") = false).
    { destruct (field parsedTeam "conference"); try reflexivity; discriminate. }
    rewrite Hdn, Hcn, Ha. auto. }
  destruct HP as [->|(Hd & Hc & Ha)]; [discriminate|].
  assert (Hdiv : truthy (field teamData "division") = true) by exact (truthy_prop _ _ Hd).
  assert (Hcon : truthy (field teamData "conference") = true) by exact (truthy_prop _ _ Hc).
  split.
  { unfold complete, js_and. rewrite Hname, Hdiv. exact Hcon. }
  split; [exact Hd|]. split; [exact Hc|]. split; [exact Ha|].
  unfold header_lines, opt_get, js_or. cbn [lookup list_lookup].
  rewrite (truthy_not_nullish _ Hdiv), (truthy_not_nullish _ Hcon), Hd, Hc.
  split; reflexivity.
Qed.
End LaterRevisionFacts.

(** The directory of the later revision knows TOR without division data:
    the record is complete with the defaults of the parser. *)
Lemma later_named_team_is_complete_witness :
  let r := GetTeam.resolve Cases.world_team_info_later (GetTeamLater.endpoints "TOR")
             (start tt) in
  let teamData := (Samples.returned (∅, []) r).1 in
  r = (Ok (teamData, []), r.2) /\
  truthy (GetTeam.field teamData "name") = true /\
  GetTeam.complete teamData = true /\
  Samples.trace r = [Samples.team_info_url] /\
  GetTeam.header_lines "TOR" teamData !! 2%nat = Some "Division: Unknown".
Proof.
  intros r teamData.
  assert (H1 : r = (Ok (teamData, []), r.2)) by (vm_compute; reflexivity).
  assert (H2 : truthy (GetTeam.field teamData "name") = true) by (vm_compute; reflexivity).
  destruct (later_named_team_is_complete Cases.world_team_info_later "TOR"
              teamData [] (start tt) r.2 H1 H2) as (Hc & _ & _ & _ & _ & _).
  split; [exact H1|]. split; [exact H2|]. split; [exact Hc|].
  split; vm_compute; reflexivity.
Defined.
